(** * extract_coverage.py: coverage lookup

    A shallow embedding of [src/extract_coverage.py] and the properties of
    its specification.

    The script reads [sys.argv], parses one JSON document from standard
    input with [json.load], scans [j["targets"]] by index for the first
    entry whose ["name"] equals the argument, prints
    ["{0:.0f}".format(lineCoverage * 100)] and exits.

    Python objects are modelled by the inductive [value]: a dict is a
    [gmap] with string keys, a float is a binary64 of [SpecFloat], an int
    is a [Z].  The output streams, the consumption of standard input,
    uncaught exceptions and [exit] are threaded through the monad [proc].

    [json.load] is Python's library, not part of the script: the bytes on
    standard input are represented by what [json.load] makes of them. *)

From Stdlib Require Import ZArith String Ascii List Lia.
From Stdlib Require Import DecimalString DecimalPos SpecFloat.
From stdpp Require Import gmap strings list.

Set Warnings "-register-all".

Open Scope Z_scope.

(** ** Python values *)

(** What [json.load] can return and what [*] builds from it: [None],
    [bool], [int], [float], [str], [list], and [dict] with str keys. *)
Inductive value : Type :=
| VNone
| VBool (b : bool)
| VInt (z : Z)
| VFloat (f : spec_float)
| VStr (s : string)
| VList (l : list value)
| VDict (m : gmap string value).

(** The exceptions the script can die from.  [exit(n)] raises
    [SystemExit(n)]; any other exception is uncaught: the interpreter
    writes a traceback and the process ends with status 1. *)
Inductive error : Type :=
| KeyError | TypeError | IndexError | ValueError | OverflowError
| JSONDecodeError.

Inductive halt : Type :=
| SystemExit (code : Z)
| Raised (e : error).

(** ** Floats: binary64 *)

Definition prec : Z := 53.
Definition emax : Z := 1024.

Definition is_double (f : spec_float) : bool := valid_binary prec emax f.

(** [float(z)] for an int: correctly rounded, [OverflowError] when the
    result is too large for a double. *)
Definition float_of_int (z : Z) : error + spec_float :=
  match binary_normalize prec emax z 0 false with
  | S754_infinity _ => inl OverflowError
  | f => inr f
  end.

(** The double nearest to [p / q]: what a decimal literal of that value
    parses to. *)
Definition float_of_ratio (p q : Z) : spec_float :=
  SFdiv prec emax (binary_normalize prec emax p 0 false)
                  (binary_normalize prec emax q 0 false).

Definition zero : spec_float := S754_zero false.
Definition one : spec_float := S754_finite false 4503599627370496 (-52).
Definition hundred : spec_float := S754_finite false 7036874417766400 (-46).

(** ** Formatting with ["{0:.0f}"] *)

(** The integer nearest to [m * 2^e], a half-way case going to the even
    neighbour: the formatter rounds the exact binary value. *)
Definition round_half_even (m : positive) (e : Z) : Z :=
  if 0 <=? e then Z.pos m * 2 ^ e
  else
    let d := 2 ^ (- e) in
    let q := Z.pos m / d in
    let r := Z.pos m mod d in
    match 2 * r ?= d with
    | Lt => q
    | Eq => if Z.even q then q else q + 1
    | Gt => q + 1
    end.

(** The decimal digits of a non-negative integer. *)
Definition decimal (n : Z) : string :=
  NilEmpty.string_of_uint (N.to_uint (Z.to_N n)).

Definition sign_str (s : bool) : string := if s then "-" else "".

(** [format(f, ".0f")] of a float: the sign bit is shown, also on a zero. *)
Definition float_0f (f : spec_float) : string :=
  match f with
  | S754_nan => "nan"
  | S754_infinity s => sign_str s +:+ "inf"
  | S754_zero s => sign_str s +:+ "0"
  | S754_finite s m e => sign_str s +:+ decimal (round_half_even m e)
  end.

(** ["{0:.0f}".format(v)]: an int is converted to float first, a str
    rejects the format code, the other types reject any format spec. *)
Definition format_0f (v : value) : error + string :=
  match v with
  | VFloat f => inr (float_0f f)
  | VInt z => match float_of_int z with
              | inr f => inr (float_0f f)
              | inl e => inl e
              end
  | VBool b => match float_of_int (Z.b2z b) with
               | inr f => inr (float_0f f)
               | inl e => inl e
               end
  | VStr _ => inl ValueError
  | VNone | VList _ | VDict _ => inl TypeError
  end.

(** ** Operators and builtins *)

Fixpoint str_repeat (s : string) (n : nat) : string :=
  match n with
  | O => ""
  | S n' => s +:+ str_repeat s n'
  end.

(** [v * n] for an int [n]. *)
Definition py_mul (v : value) (n : Z) : error + value :=
  match v with
  | VInt z => inr (VInt (z * n))
  | VBool b => inr (VInt (Z.b2z b * n))
  | VFloat f => match float_of_int n with
                | inr g => inr (VFloat (SFmul prec emax f g))
                | inl e => inl e
                end
  | VStr s => inr (VStr (str_repeat s (Z.to_nat n)))
  | VList l => inr (VList (mjoin (replicate (Z.to_nat n) l)))
  | VNone | VDict _ => inl TypeError
  end.

(** [len(v)] *)
Definition py_len (v : value) : error + nat :=
  match v with
  | VList l => inr (length l)
  | VStr s => inr (String.length s)
  | VDict m => inr (size m)
  | VNone | VBool _ | VInt _ | VFloat _ => inl TypeError
  end.

(** [v[k]] for a str key [k]. *)
Definition getitem_str (v : value) (k : string) : error + value :=
  match v with
  | VDict m => match m !! k with
               | Some x => inr x
               | None => inl KeyError
               end
  | _ => inl TypeError
  end.

(** [v[i]] for an index [i] that [range] produced.  A dict parsed from
    JSON has str keys only, so an int key is never found. *)
Definition getitem_int (v : value) (i : nat) : error + value :=
  match v with
  | VList l => match l !! i with
               | Some x => inr x
               | None => inl IndexError
               end
  | VStr s => match String.get i s with
              | Some c => inr (VStr (String c EmptyString))
              | None => inl IndexError
              end
  | VDict _ => inl KeyError
  | VNone | VBool _ | VInt _ | VFloat _ => inl TypeError
  end.

(** [v == s] for a str [s]: only an equal str compares equal. *)
Definition py_eq (v : value) (s : string) : bool :=
  match v with
  | VStr t => bool_decide (t = s)
  | _ => false
  end.

(** ** The process *)

(** [stdin] is what [json.load] makes of the bytes waiting on standard
    input, [inl] when they do not parse; [stdin_read] tells whether they
    were consumed.  [stderr] holds what the script prints there; the
    traceback the interpreter adds for an uncaught exception is not spelled
    out, the outcome [Raised e] stands for it. *)
Record world : Type := World {
  argv : list string;
  stdin : error + value;
  stdin_read : bool;
  stdout : string;
  stderr : string
}.

Definition proc (A : Type) : Type := world → (halt + A) * world.

#[global] Instance proc_ret : MRet proc := λ A x w, (inr x, w).

#[global] Instance proc_bind : MBind proc := λ A B f c w,
  match c w with
  | (inr x, w') => f x w'
  | (inl h, w') => (inl h, w')
  end.

Definition try {A} (r : error + A) : proc A := λ w,
  match r with
  | inr x => (inr x, w)
  | inl e => (inl (Raised e), w)
  end.

Definition exit {A} (code : Z) : proc A := λ w, (inl (SystemExit code), w).

Definition nl : string := String "010" EmptyString.

Definition print (s : string) : proc unit := λ w,
  (inr tt,
   World (argv w) (stdin w) (stdin_read w) (stdout w +:+ s +:+ nl) (stderr w)).

Definition print_stderr (s : string) : proc unit := λ w,
  (inr tt,
   World (argv w) (stdin w) (stdin_read w) (stdout w) (stderr w +:+ s +:+ nl)).

Definition sys_argv : proc (list string) := λ w, (inr (argv w), w).

(** [av[i]] on the argument list. *)
Definition arg (av : list string) (i : nat) : error + string :=
  match av !! i with
  | Some s => inr s
  | None => inl IndexError
  end.

(** [json.load(sys.stdin)]: reads standard input to its end, then parses. *)
Definition json_load : proc value := λ w,
  let w' := World (argv w) (stdin w) true (stdout w) (stderr w) in
  match stdin w with
  | inr j => (inr j, w')
  | inl e => (inl (Raised e), w')
  end.

(** [for i in range(n): body], counting up from [i]. *)
Fixpoint for_range (body : nat → proc unit) (i n : nat) : proc unit :=
  match n with
  | O => mret tt
  | S n' => body i ;; for_range body (S i) n'
  end.

(** ** The script *)

(** Lines 14-16: the body of the loop. *)
Definition body (framework : string) (j : value) (i : nat) : proc unit :=
  t ← try (getitem_str j "targets");
  e ← try (getitem_int t i);
  name ← try (getitem_str e "name");
  if py_eq name framework then
    t ← try (getitem_str j "targets");
    e ← try (getitem_int t i);
    c ← try (getitem_str e "lineCoverage");
    p ← try (py_mul c 100);
    s ← try (format_0f p);
    print s;;
    exit 0
  else mret tt.

(** ["Usage: {} frameworkname".format(a0)] *)
Definition usage (a0 : string) : string :=
  "Usage: " +:+ a0 +:+ " frameworkname".

Definition main : proc unit :=
  av ← sys_argv;
  (if bool_decide (length av ≠ 2%nat) then
     a0 ← try (arg av 0);
     print_stderr (usage a0);;
     exit 1
   else mret tt);;
  framework ← try (arg av 1);
  j ← json_load;
  t ← try (getitem_str j "targets");
  n ← try (py_len t);
  for_range (body framework j) 0 n;;
  exit 1.

(** One invocation: the argument vector [av] (program name first), the
    parse [d] of standard input, both output streams empty. *)
Definition run (av : list string) (d : error + value) : (halt + unit) * world :=
  main (World av d false "" "").

(** The exit status of the process. *)
Definition exit_code (r : halt + unit) : Z :=
  match r with
  | inl (SystemExit c) => c
  | inl (Raised _) => 1
  | inr _ => 0
  end.

Definition status (o : (halt + unit) * world) : Z := exit_code (fst o).
Definition output (o : (halt + unit) * world) : string := stdout (snd o).
Definition errput (o : (halt + unit) * world) : string := stderr (snd o).

(** ** Views of the script used in the proofs *)

(** Lines 15-16 with the coverage value in hand. *)
Definition emit (c : value) : proc unit :=
  p ← try (py_mul c 100);
  s ← try (format_0f p);
  print s;;
  exit 0.

(** The loop body with the entry in hand. *)
Definition visit (N : string) (e : value) : proc unit :=
  name ← try (getitem_str e "name");
  if py_eq name N then
    c ← try (getitem_str e "lineCoverage");
    emit c
  else mret tt.

(** The loop over the entries themselves. *)
Fixpoint scan (N : string) (ts : list value) : proc unit :=
  match ts with
  | [] => mret tt
  | e :: ts' => visit N e ;; scan N ts'
  end.

(** Lines 12-18: what runs once the command line is taken apart. *)
Definition lookup (framework : string) : proc unit :=
  j ← json_load;
  t ← try (getitem_str j "targets");
  n ← try (py_len t);
  for_range (body framework j) 0 n;;
  exit 1.

(** The world when [json.load] has returned. *)
Definition loaded (av : list string) (d : error + value) : world :=
  World av d true "" "".

Definition set_argv (av : list string) (w : world) : world :=
  World av (stdin w) (stdin_read w) (stdout w) (stderr w).

(** A computation that neither reads nor changes [argv]. *)
Definition ignores_argv {A} (c : proc A) : Prop :=
  ∀ av w, c (set_argv av w) = (fst (c w), set_argv av (snd (c w))).

(** ** Reports *)

(** A field of an entry: [None] when the entry is no dict or lacks it. *)
Definition field (e : value) (k : string) : option value :=
  match e with
  | VDict m => m !! k
  | _ => None
  end.

(** The entry is a dict whose ["name"] is the str [N]. *)
Definition named (N : string) (e : value) : bool :=
  match field e "name" with
  | Some v => py_eq v N
  | None => false
  end.

(** A JSON number: an int, or a float that is a double. *)
Definition numeric (v : value) : bool :=
  match v with
  | VInt _ => true
  | VFloat f => is_double f
  | _ => false
  end.

Definition is_str (v : value) : bool :=
  match v with
  | VStr _ => true
  | _ => false
  end.

(** A record with a str ["name"] and a numeric ["lineCoverage"]. *)
Definition well_formed_record (e : value) : bool :=
  match field e "name", field e "lineCoverage" with
  | Some name, Some c => is_str name && numeric c
  | _, _ => false
  end.

(** The array under ["targets"] of an object. *)
Definition targets (j : value) : option (list value) :=
  match field j "targets" with
  | Some (VList ts) => Some ts
  | _ => None
  end.

(** A well-formed report: an object whose ["targets"] is an array of
    well-formed records. *)
Definition well_formed (j : value) : bool :=
  match targets j with
  | Some ts => forallb well_formed_record ts
  | None => false
  end.

(** [0 <= c <= 1] for a number [c]. *)
Definition in_unit_interval (c : value) : bool :=
  match c with
  | VInt z => (0 <=? z) && (z <=? 1)
  | VFloat f => SFleb zero f && SFleb f one
  | _ => false
  end.

(** The ways an input fails to be a report that the script runs into:
    it does not parse; it has no ["targets"] (or is no object); its
    ["targets"] is no array; an entry not after the first one named [N]
    has no ["name"]; the first entry named [N] has no ["lineCoverage"]. *)
Inductive malformed (N : string) : error + value → Prop :=
| parse_failure e :
    malformed N (inl e)
| no_targets j :
    field j "targets" = None → malformed N (inr j)
| targets_not_array j t :
    field j "targets" = Some t → (∀ ts, t ≠ VList ts) → malformed N (inr j)
| entry_without_name j ts pre e post :
    targets j = Some ts → ts = pre ++ e :: post →
    Forall (λ x, named N x = false) pre →
    field e "name" = None → malformed N (inr j)
| match_without_coverage j ts pre e post :
    targets j = Some ts → ts = pre ++ e :: post →
    Forall (λ x, named N x = false) pre →
    named N e = true → field e "lineCoverage" = None → malformed N (inr j).

(** ** What the specification calls rounding and an integer *)

(** [n] is the integer nearest to the float [f], a half-way case being
    settled for the even integer, as Python's [round] does. *)
Definition nearest_integer (f : spec_float) (n : Z) : Prop :=
  match f with
  | S754_zero _ => n = 0
  | S754_finite s m e =>
      let a := cond_Zopp s (Z.pos m) * 2 ^ Z.max 0 e in
      let d := 2 ^ Z.max 0 (- e) in
      2 * Z.abs (n * d - a) <= d ∧ (2 * Z.abs (n * d - a) = d → Z.even n = true)
  | S754_infinity _ | S754_nan => False
  end.

(** [round(v) = n] for a number [v]. *)
Definition rounds_to (v : value) (n : Z) : Prop :=
  match v with
  | VInt z => n = z
  | VFloat f => nearest_integer f n
  | _ => False
  end.

(** [str(n)] for an int [n]. *)
Definition decimal_int (n : Z) : string :=
  sign_str (n <? 0) +:+ decimal (Z.abs n).

Definition is_digit (c : ascii) : bool :=
  (48 <=? nat_of_ascii c)%nat && (nat_of_ascii c <=? 57)%nat.

Fixpoint all_digits (s : string) : bool :=
  match s with
  | EmptyString => true
  | String c s' => is_digit c && all_digits s'
  end.

(** A non-empty run of decimal digits: no sign, no point, no separator. *)
Definition unsigned_integer (s : string) : bool :=
  negb (bool_decide (s = "")) && all_digits s.

(** ** Sample reports *)

Definition record (name : string) (c : value) : value :=
  VDict (<["name" := VStr name]> {["lineCoverage" := c]}).

Definition report (ts : list value) : value :=
  VDict {["targets" := VList ts]}.

(** The report of the specification's scenario. *)
Definition sample_targets : list value :=
  [record "alpha" (VFloat (float_of_ratio 873 1000));
   record "beta" (VFloat (float_of_ratio 1 2))].

Definition sample : value := report sample_targets.

(** Two records of one name. *)
Definition duplicate_targets : list value :=
  [record "N" (VInt 0); record "N" (VInt 1)].

Definition duplicates : value := report duplicate_targets.

(** Two records of one name, the first with the coverage [-0.0]. *)
Definition signed_duplicate_targets : list value :=
  [record "N" (VFloat (S754_zero true)); record "N" (VInt 1)].

Definition signed_duplicates : value := report signed_duplicate_targets.

(** An entry without ["lineCoverage"] before the match and an entry without
    any field after it. *)
Definition junk_around : value :=
  report [VDict {["name" := VStr "M"]};
          record "N" (VFloat (float_of_ratio 1 2));
          VDict ∅].

(** A coverage of [-0.0]. *)
Definition negative_zero : value :=
  report [record "N" (VFloat (S754_zero true))].

(** A coverage of [0.005]. *)
Definition boundary : value :=
  report [record "N" (VFloat (float_of_ratio 5 1000))].

(** An entry without ["name"] before the match. *)
Definition nameless : value :=
  VDict {["lineCoverage" := VFloat (float_of_ratio 1 2)]}.

Definition nameless_first : value :=
  report [nameless; record "N" (VFloat (float_of_ratio 1 2))].

(** A coverage of [-0.5]. *)
Definition overdrawn_targets : list value :=
  [record "N" (VFloat (float_of_ratio (-1) 2)); record "M" (VInt 2)].

Definition overdrawn : value := report overdrawn_targets.

(** An int coverage of 401 digits. *)
Definition oversized : value :=
  report [record "N" (VInt (10 ^ 400))].

(** ** Notions for the further properties *)

(** The world after [print(s)]. *)
Definition printed (w : world) (s : string) : world :=
  World (argv w) (stdin w) (stdin_read w) (stdout w +:+ s +:+ nl) (stderr w).

(** What one entry settles when the scan reaches it: nothing ([None]) when
    its ["name"] is another one, an exception, or the line to print. *)
Definition entry_outcome (N : string) (e : value) : option (error + string) :=
  match getitem_str e "name" with
  | inl err => Some (inl err)
  | inr name =>
      if py_eq name N then
        match getitem_str e "lineCoverage" with
        | inl err => Some (inl err)
        | inr c =>
            match py_mul c 100 with
            | inl err => Some (inl err)
            | inr p =>
                match format_0f p with
                | inl err => Some (inl err)
                | inr s => Some (inr s)
                end
            end
        end
      else None
  end.

(** What the first entry that settles anything settles. *)
Fixpoint first_outcome (N : string) (ts : list value) : option (error + string) :=
  match ts with
  | [] => None
  | e :: ts' =>
      match entry_outcome N e with
      | None => first_outcome N ts'
      | Some r => Some r
      end
  end.

(** How the process ends on it: [exit(1)] when nothing was settled. *)
Definition finish (w : world) (r : option (error + string)) : (halt + unit) * world :=
  match r with
  | None => (inl (SystemExit 1), w)
  | Some (inl err) => (inl (Raised err), w)
  | Some (inr s) => (inl (SystemExit 0), printed w s)
  end.

(** The texts the formatter can produce: digits with or without a minus
    sign, [nan], [inf], [-inf]. *)
Definition percent_text (s : string) : bool :=
  bool_decide (s = "nan") || bool_decide (s = "inf") ||
  bool_decide (s = "-inf") || unsigned_integer s ||
  match s with
  | String "-" s' => unsigned_integer s'
  | _ => false
  end.

(** The entry has a ["name"] and it is not the str [N]. *)
Definition other_name (N : string) (e : value) : bool :=
  match field e "name" with
  | Some v => negb (py_eq v N)
  | None => false
  end.

(** Two entries with the same ["name"] and the same ["lineCoverage"]. *)
Definition same_fields (e1 e2 : value) : Prop :=
  field e1 "name" = field e2 "name" ∧
  field e1 "lineCoverage" = field e2 "lineCoverage".

(** A value that is neither a number nor a bool. *)
Definition not_a_number (v : value) : bool :=
  match v with
  | VNone | VStr _ | VList _ | VDict _ => true
  | VBool _ | VInt _ | VFloat _ => false
  end.

(** A [targets] that has a length but no entry: [[]], [""] or [{}]. *)
Definition empty_sized (t : value) : bool :=
  match t with
  | VList [] => true
  | VStr "" => true
  | VDict m => bool_decide (size m = 0%nat)
  | _ => false
  end.

(** Two ends of the scan that differ at most in the kind of exception. *)
Definition same_end (r1 r2 : option (error + string)) : Prop :=
  match r1, r2 with
  | None, None => True
  | Some (inl _), Some (inl _) => True
  | Some (inr s1), Some (inr s2) => s1 = s2
  | _, _ => False
  end.

(** ** Products that are printed as their rounding *)

(** The integer a float stands for, when it stands for one. *)
Definition int_value (f : spec_float) : option Z :=
  match f with
  | S754_zero _ => Some 0
  | S754_finite s m e =>
      if 0 <=? e then Some (cond_Zopp s (Z.pos m * 2 ^ e))
      else if Z.pos m mod 2 ^ (- e) =? 0
           then Some (cond_Zopp s (Z.pos m / 2 ^ (- e)))
           else None
  | S754_infinity _ | S754_nan => None
  end.

(** A float in [-0.5, -0.0]: negative, and rounded to zero. *)
Definition rounds_to_negative_zero (f : spec_float) : bool :=
  match f with
  | S754_zero s => s
  | S754_finite s m e => s && (e <? 0) && (2 * Z.pos m <=? 2 ^ (- e))
  | S754_infinity _ | S754_nan => false
  end.

Definition is_finite (f : spec_float) : bool :=
  match f with
  | S754_zero _ | S754_finite _ _ _ => true
  | S754_infinity _ | S754_nan => false
  end.

(** The products the formatter prints as [round] has them: a finite float
    outside [-0.5, -0.0], or an int that a double holds exactly
    ([float(z) == z]). *)
Definition plain_product (p : value) : bool :=
  match p with
  | VFloat f => is_finite f && negb (rounds_to_negative_zero f)
  | VInt z =>
      match float_of_int z with
      | inr f => match int_value f with
                 | Some z' => z' =? z
                 | None => false
                 end
      | inl _ => false
      end
  | _ => false
  end.

(** Coverages off the unit interval, each under its own name. *)
Definition off_range_targets : list value :=
  [record "high" (VFloat (float_of_ratio 3 2));
   record "low" (VFloat (float_of_ratio (-1) 2));
   record "twice" (VInt 2)].

Definition off_range : value := report off_range_targets.

(** A NaN and an int that no double holds: [2^53 + 1] times 100. *)
Definition unroundable_targets : list value :=
  [record "nan" (VFloat S754_nan);
   record "wide" (VInt 9007199254740993)].

Definition unroundable : value := report unroundable_targets.

(** * Proofs *)

(** ** The loop by index is the scan of the list *)

Section Scan.

Variables (N : string) (j : value) (ts : list value).

Hypothesis Htargets : getitem_str j "targets" = inr (VList ts).

Lemma body_visit i e w :
  ts !! i = Some e → body N j i w = visit N e w.
Proof.
  intros Hi. unfold body, visit, mbind, proc_bind.
  rewrite Htargets. simpl. rewrite Hi. simpl.
  destruct (getitem_str e "name") as [err|name]; simpl; [done|].
  destruct (py_eq name N); done.
Qed.

Lemma for_range_scan pre suf w :
  ts = pre ++ suf →
  for_range (body N j) (length pre) (length suf) w = scan N suf w.
Proof.
  revert pre w. induction suf as [|e suf IH]; intros pre w Hts; [done|].
  simpl. unfold mbind, proc_bind.
  rewrite (body_visit (length pre) e).
  2:{ rewrite Hts. by rewrite list_lookup_middle. }
  destruct (visit N e w) as [[h|[]] w']; [done|].
  specialize (IH (pre ++ [e]) w').
  rewrite length_app in IH. simpl in IH.
  replace (length pre + 1)%nat with (S (length pre)) in IH by lia.
  apply IH. by rewrite <- app_assoc.
Qed.

End Scan.

Lemma getitem_field e k v : field e k = Some v → getitem_str e k = inr v.
Proof. destruct e; simpl; try done. by intros ->. Qed.

Lemma getitem_no_field e k :
  field e k = None → ∃ err, getitem_str e k = inl err.
Proof. destruct e; simpl; eauto. intros ->. eauto. Qed.

Lemma targets_inv j ts :
  targets j = Some ts →
  ∃ m, j = VDict m ∧ m !! "targets" = Some (VList ts).
Proof.
  unfold targets, field. destruct j as [| | | | | |m]; try done.
  destruct (m !! "targets") as [[]|] eqn:E; try done.
  intros [= ->]. eauto.
Qed.

(** With one argument and an array under ["targets"], the script is the
    scan followed by [exit(1)]. *)
Lemma run_targets prog N j ts :
  targets j = Some ts →
  run [prog; N] (inr j) = (scan N ts ;; exit 1) (loaded [prog; N] (inr j)).
Proof.
  intros (m & -> & Hm)%targets_inv.
  unfold run, main, mbind, proc_bind. simpl. rewrite Hm. simpl.
  rewrite (for_range_scan N (VDict m) ts) with (pre := []) (suf := ts);
    try done.
  simpl. by rewrite Hm.
Qed.

(** ** One entry *)

Lemma named_field N e :
  named N e = true ↔ field e "name" = Some (VStr N).
Proof.
  unfold named. destruct (field e "name") as [v|]; [|done].
  destruct v; simpl; try done.
  rewrite bool_decide_eq_true. split; [by intros ->|by intros [= ->]].
Qed.

Lemma visit_named N e c w :
  named N e = true → field e "lineCoverage" = Some c →
  visit N e w = emit c w.
Proof.
  intros Hn Hc. pose proof Hn as Hf. apply named_field in Hf.
  unfold visit, mbind, proc_bind.
  rewrite (getitem_field _ _ _ Hf). simpl.
  rewrite bool_decide_eq_true_2 by done.
  by rewrite (getitem_field _ _ _ Hc).
Qed.

Lemma visit_named_no_coverage N e w :
  named N e = true → field e "lineCoverage" = None →
  ∃ err, visit N e w = (inl (Raised err), w).
Proof.
  intros Hn Hc. pose proof Hn as Hf. apply named_field in Hf.
  unfold visit, mbind, proc_bind.
  rewrite (getitem_field _ _ _ Hf). simpl.
  rewrite bool_decide_eq_true_2 by done.
  destruct (getitem_no_field _ _ Hc) as [err ->]. eauto.
Qed.

Lemma visit_no_name N e w :
  field e "name" = None → ∃ err, visit N e w = (inl (Raised err), w).
Proof.
  intros Hf. unfold visit, mbind, proc_bind.
  destruct (getitem_no_field _ _ Hf) as [err ->]. eauto.
Qed.

Lemma visit_other N e w :
  named N e = false →
  visit N e w = (inr tt, w) ∨ ∃ err, visit N e w = (inl (Raised err), w).
Proof.
  intros Hn. destruct (field e "name") as [v|] eqn:Hf.
  - left. unfold visit, mbind, proc_bind.
    rewrite (getitem_field _ _ _ Hf). simpl.
    unfold named in Hn. rewrite Hf in Hn. by rewrite Hn.
  - right. by apply visit_no_name.
Qed.

Lemma visit_other_record N e w :
  well_formed_record e = true → named N e = false →
  visit N e w = (inr tt, w).
Proof.
  intros Hwf Hn. destruct (visit_other N e w Hn) as [|[err H]]; [done|].
  exfalso. unfold well_formed_record in Hwf.
  destruct (field e "name") as [v|] eqn:Hf; [|done].
  revert H. unfold visit, mbind, proc_bind.
  rewrite (getitem_field _ _ _ Hf). simpl.
  unfold named in Hn. rewrite Hf in Hn. by rewrite Hn.
Qed.

Lemma emit_ok c p s w :
  py_mul c 100 = inr p → format_0f p = inr s →
  emit c w =
    (inl (SystemExit 0),
     World (argv w) (stdin w) (stdin_read w) (stdout w +:+ s +:+ nl) (stderr w)).
Proof.
  intros Hp Hs. unfold emit, mbind, proc_bind, try.
  rewrite Hp. simpl. by rewrite Hs.
Qed.

(** ** The scan *)

Lemma scan_cons N e ts w :
  scan N (e :: ts) w =
    match visit N e w with
    | (inr _, w') => scan N ts w'
    | (inl h, w') => (inl h, w')
    end.
Proof.
  simpl. unfold mbind, proc_bind. by destruct (visit N e w) as [[|[]] ?].
Qed.

(** Entries that are not named [N] print nothing: the scan passes them or
    dies on one of them. *)
Lemma scan_others N pre suf w :
  Forall (λ e, named N e = false) pre →
  scan N (pre ++ suf) w = scan N suf w ∨
  ∃ err, scan N (pre ++ suf) w = (inl (Raised err), w).
Proof.
  induction 1 as [|e pre He _ IH]; [by left|].
  rewrite <- app_comm_cons, scan_cons.
  destruct (visit_other N e w He) as [->|[err ->]]; eauto.
Qed.

Lemma scan_others_records N pre suf w :
  Forall (λ e, well_formed_record e = true) pre →
  Forall (λ e, named N e = false) pre →
  scan N (pre ++ suf) w = scan N suf w.
Proof.
  induction 1 as [|e pre He _ IH]; [done|].
  intros [Hn Hpre]%Forall_cons.
  rewrite <- app_comm_cons, scan_cons, visit_other_record; auto.
Qed.

Lemma find_split {A} (f : A → bool) l x :
  find f l = Some x →
  ∃ pre post, l = pre ++ x :: post ∧ f x = true ∧
              Forall (λ y, f y = false) pre.
Proof.
  induction l as [|a l IH]; [done|]. simpl.
  destruct (f a) eqn:Ha.
  - intros [= ->]. exists [], l. auto.
  - intros (pre & post & -> & Hx & Hpre)%IH.
    exists (a :: pre), post. auto.
Qed.

Lemma absent_not_named N ts :
  (∀ e, In e ts → field e "name" ≠ Some (VStr N)) →
  Forall (λ e, named N e = false) ts.
Proof.
  intros H. apply Forall_forall. intros e He%list_elem_of_In.
  destruct (named N e) eqn:E; [|done].
  apply named_field in E. by apply H in He.
Qed.

Lemma record_coverage_numeric e c :
  well_formed_record e = true → field e "lineCoverage" = Some c →
  numeric c = true.
Proof.
  unfold well_formed_record. intros H Hc. rewrite Hc in H.
  destruct (field e "name"); [|done]. by apply andb_prop in H as [_ H].
Qed.

(** ** Well-formed reports *)

Section WellFormed.

Variables (prog N : string) (j : value) (ts : list value).

Hypothesis Hwf : well_formed j = true.

Hypothesis Hts : targets j = Some ts.

Lemma well_formed_records :
  Forall (λ e, well_formed_record e = true) ts.
Proof.
  revert Hwf. unfold well_formed. rewrite Hts. intros H.
  apply Forall_forall. intros e He%list_elem_of_In.
  rewrite forallb_forall in H. auto.
Qed.

(** The first entry named [N] decides the run. *)
Lemma run_first_match r c :
  find (named N) ts = Some r → field r "lineCoverage" = Some c →
  run [prog; N] (inr j) = emit c (loaded [prog; N] (inr j)).
Proof.
  intros Hr Hc. rewrite (run_targets _ _ _ _ Hts).
  pose proof well_formed_records as Hall.
  apply find_split in Hr as (pre & post & Hsplit & Hr & Hpre).
  rewrite Hsplit in Hall |- *.
  apply Forall_app in Hall as [Hall _].
  unfold mbind at 1. unfold proc_bind.
  rewrite scan_others_records by done.
  rewrite scan_cons, (visit_named _ _ c) by done.
  unfold emit, mbind, proc_bind, try, print, exit.
  destruct (py_mul c 100) as [|p]; [done|].
  by destruct (format_0f p).
Qed.

Lemma first_match_numeric r c :
  find (named N) ts = Some r → field r "lineCoverage" = Some c →
  numeric c = true.
Proof.
  intros Hr Hc. apply find_some in Hr as [Hin _].
  pose proof well_formed_records as Hall.
  rewrite Forall_forall in Hall. apply list_elem_of_In in Hin.
  eapply record_coverage_numeric; eauto.
Qed.

(** Without an entry named [N] the run ends in [exit(1)]. *)
Lemma run_no_match :
  Forall (λ e, named N e = false) ts →
  run [prog; N] (inr j) = (inl (SystemExit 1), loaded [prog; N] (inr j)).
Proof.
  intros Hnone. rewrite (run_targets _ _ _ _ Hts).
  unfold mbind, proc_bind.
  rewrite <- (app_nil_r ts), scan_others_records; [done| |done].
  apply well_formed_records.
Qed.

End WellFormed.

(** ** Inputs that are no report *)

Lemma run_parse_failure prog N e :
  run [prog; N] (inl e) = (inl (Raised e), loaded [prog; N] (inl e)).
Proof. reflexivity. Qed.

Lemma run_no_targets prog N j :
  field j "targets" = None →
  ∃ err, run [prog; N] (inr j) = (inl (Raised err), loaded [prog; N] (inr j)).
Proof.
  intros Hf. destruct (getitem_no_field _ _ Hf) as [err He]. exists err.
  unfold run, main, mbind, proc_bind. simpl. by rewrite He.
Qed.

(** [len] rejects the scalars; an empty str or dict ends the loop at once;
    on a longer one the first round fails, at ["name"] or at the index. *)
Lemma run_targets_not_array prog N j t :
  field j "targets" = Some t → (∀ ts, t ≠ VList ts) →
  ∃ h, run [prog; N] (inr j) = (inl h, loaded [prog; N] (inr j)) ∧
       exit_code (inl h) = 1.
Proof.
  intros Hf Ht. pose proof (getitem_field _ _ _ Hf) as Hg.
  unfold run, main, mbind, proc_bind. simpl. rewrite Hg. simpl.
  destruct t as [| | | |s|l|m]; simpl; eauto.
  - destruct s as [|a s]; simpl; [eauto|].
    unfold body, mbind, proc_bind. rewrite Hg. simpl. eauto.
  - by destruct (Ht l).
  - destruct (size m); simpl; [eauto|].
    unfold body, mbind, proc_bind. rewrite Hg. simpl. eauto.
Qed.

Lemma run_broken_entry prog N j ts pre e post :
  targets j = Some ts → ts = pre ++ e :: post →
  Forall (λ x, named N x = false) pre →
  (∀ w, ∃ err, visit N e w = (inl (Raised err), w)) →
  ∃ err, run [prog; N] (inr j) = (inl (Raised err), loaded [prog; N] (inr j)).
Proof.
  intros Hts -> Hpre He. rewrite (run_targets _ _ _ _ Hts).
  unfold mbind, proc_bind.
  destruct (scan_others N pre (e :: post) (loaded [prog; N] (inr j)) Hpre)
    as [-> | [err ->]]; [|eauto].
  rewrite scan_cons. destruct (He (loaded [prog; N] (inr j))) as [err ->].
  eauto.
Qed.

(** ** The command line *)

Lemma run_lookup prog N d :
  run [prog; N] d = lookup N (World [prog; N] d false "" "").
Proof. reflexivity. Qed.

Lemma run_usage prog args d :
  length args ≠ 1%nat →
  run (prog :: args) d =
    (inl (SystemExit 1), World (prog :: args) d false "" (usage prog +:+ nl)).
Proof.
  intros Hlen. unfold run, main, mbind, proc_bind. simpl.
  by rewrite bool_decide_eq_true_2 by (simpl; lia).
Qed.

Create HintDb argv.

Lemma ignores_argv_ret {A} (x : A) : ignores_argv (mret x).
Proof. done. Qed.

Lemma ignores_argv_bind {A B} (c : proc A) (k : A → proc B) :
  ignores_argv c → (∀ x, ignores_argv (k x)) → ignores_argv (c ≫= k).
Proof.
  intros Hc Hk av w. unfold mbind, proc_bind. rewrite Hc.
  destruct (c w) as [[h|x] w']; simpl; [done|]. apply Hk.
Qed.

Lemma ignores_argv_try {A} (r : error + A) : ignores_argv (try r).
Proof. by destruct r. Qed.

Lemma ignores_argv_exit {A} code : ignores_argv (@exit A code).
Proof. done. Qed.

Lemma ignores_argv_print s : ignores_argv (print s).
Proof. done. Qed.

Lemma ignores_argv_json_load : ignores_argv json_load.
Proof. intros av [a d r so se]. unfold json_load. simpl. by destruct d. Qed.

#[local] Hint Resolve ignores_argv_ret ignores_argv_try ignores_argv_exit
  ignores_argv_print ignores_argv_json_load : argv.

#[local] Hint Extern 2 (ignores_argv (_ ≫= _)) =>
  apply ignores_argv_bind; [|intros ?] : argv.

Lemma ignores_argv_body N j i : ignores_argv (body N j i).
Proof.
  unfold body.
  do 3 (apply ignores_argv_bind; [auto with argv|intros ?]).
  destruct (py_eq _ _); auto 20 with argv.
Qed.

Lemma ignores_argv_for_range N j i n :
  ignores_argv (for_range (body N j) i n).
Proof.
  revert i. induction n as [|n IH]; intros i; simpl; [auto with argv|].
  apply ignores_argv_bind; [apply ignores_argv_body|auto].
Qed.

Lemma ignores_argv_lookup N : ignores_argv (lookup N).
Proof.
  unfold lookup.
  do 3 (apply ignores_argv_bind; [auto with argv|intros ?]).
  apply ignores_argv_bind; [apply ignores_argv_for_range|auto with argv].
Qed.

(** The program name does not reach standard output or the status. *)
Lemma run_program_name p1 p2 N d :
  fst (run [p1; N] d) = fst (run [p2; N] d) ∧
  output (run [p1; N] d) = output (run [p2; N] d).
Proof.
  rewrite !run_lookup. unfold output.
  pose proof (ignores_argv_lookup N [p1; N] (World [p2; N] d false "" "")) as H.
  unfold set_argv in H. simpl in H. by rewrite H.
Qed.

(** ** Binary64 rounding *)

Lemma float_of_int_100 : float_of_int 100 = inr hundred.
Proof. reflexivity. Qed.

Lemma py_mul_float f :
  py_mul (VFloat f) 100 = inr (VFloat (SFmul prec emax f hundred)).
Proof. reflexivity. Qed.

Module Binary64.

Lemma digits2_pos_bound p k :
  0 <= k → Z.pos p < 2 ^ k → Z.pos (digits2_pos p) <= k.
Proof.
  revert k. induction p as [p IH|p IH|]; intros k Hk Hp; simpl;
    assert (0 < k) by (destruct (Z.eq_dec k 0) as [->|]; [simpl in Hp|]; lia);
    try lia;
    replace k with (Z.succ (k - 1)) in Hp by lia;
    rewrite Z.pow_succ_r in Hp by lia;
    specialize (IH (k - 1)); lia.
Qed.

Lemma digits2_pos_lt p : Z.pos p < 2 ^ Z.pos (digits2_pos p).
Proof.
  induction p as [p IH|p IH|]; simpl; try done;
    rewrite Pos2Z.inj_succ, Z.pow_succ_r by lia; lia.
Qed.

Lemma Zdigits2_bound z k : 0 <= k → 0 <= z < 2 ^ k → Zdigits2 z <= k.
Proof.
  intros Hk [H0 Hz]. destruct z as [|p|p]; simpl; try lia.
  by apply digits2_pos_bound.
Qed.

Lemma shr_1_m mrs : 0 <= shr_m mrs → 0 <= shr_m (shr_1 mrs) <= shr_m mrs.
Proof.
  destruct mrs as [m r s]. simpl. intros Hm.
  destruct m as [|[p|p|]|p]; simpl; lia.
Qed.

Lemma iter_shr_1_m p mrs :
  0 <= shr_m mrs →
  0 <= shr_m (SpecFloat.iter_pos shr_1 p mrs) <= shr_m mrs.
Proof.
  revert mrs. induction p as [p IH|p IH|]; intros mrs Hm; simpl.
  - pose proof (shr_1_m mrs Hm) as H1.
    pose proof (IH (shr_1 mrs) (proj1 H1)) as H2.
    pose proof (IH _ (proj1 H2)). lia.
  - pose proof (IH mrs Hm) as H2.
    pose proof (IH _ (proj1 H2)). lia.
  - by apply shr_1_m.
Qed.

Lemma shr_spec mrs e n :
  0 <= shr_m mrs →
  0 <= shr_m (fst (shr mrs e n)) <= shr_m mrs ∧
  snd (shr mrs e n) = Z.max e (e + n).
Proof.
  intros Hm. destruct n as [|p|p]; simpl; try lia.
  split; [by apply iter_shr_1_m | lia].
Qed.

Lemma shr_record_of_loc_m m l : shr_m (shr_record_of_loc m l) = m.
Proof. by destruct l as [|[]]. Qed.

Lemma round_nearest_even_bound m l : m <= round_nearest_even m l <= m + 1.
Proof. destruct l as [|[]]; simpl; try lia. destruct (Z.even m); lia. Qed.

Lemma fexp_eq x : fexp prec emax x = Z.max (x - 53) (-1074).
Proof. unfold fexp, emin, prec, emax. lia. Qed.

(** A small mantissa with a small exponent rounds to a zero or to a finite
    double of the same sign: no overflow, no NaN. *)
Lemma binary_round_aux_small sx mx ex k :
  0 <= mx → mx + 1 < 2 ^ k → 0 <= k <= 400 → ex <= 0 →
  binary_round_aux prec emax sx mx ex loc_Exact = S754_zero sx ∨
  ∃ m e, binary_round_aux prec emax sx mx ex loc_Exact = S754_finite sx m e.
Proof.
  intros Hmx Hk Hk4 Hex. unfold binary_round_aux, shr_fexp.
  set (n1 := fexp prec emax (Zdigits2 mx + ex) - ex).
  pose proof (shr_spec (shr_record_of_loc mx loc_Exact) ex n1) as [Hm1 He1].
  { by rewrite shr_record_of_loc_m. }
  destruct (shr (shr_record_of_loc mx loc_Exact) ex n1) as [mrs1 e1].
  simpl in Hm1, He1.
  set (m1 := round_nearest_even (shr_m mrs1) (loc_of_shr_record mrs1)).
  pose proof (round_nearest_even_bound (shr_m mrs1) (loc_of_shr_record mrs1))
    as Hr.
  fold m1 in Hr.
  set (n2 := fexp prec emax (Zdigits2 m1 + e1) - e1).
  pose proof (shr_spec (shr_record_of_loc m1 loc_Exact) e1 n2) as [Hm2 He2].
  { rewrite shr_record_of_loc_m. lia. }
  destruct (shr (shr_record_of_loc m1 loc_Exact) e1 n2) as [mrs2 e2].
  simpl in Hm2, He2.
  assert (Zdigits2 mx <= k) by (apply Zdigits2_bound; lia).
  assert (Zdigits2 m1 <= k) by (apply Zdigits2_bound; lia).
  assert (e2 <= 971).
  { subst n1 n2. rewrite !fexp_eq in *. lia. }
  destruct (shr_m mrs2) as [|p|p] eqn:E; [by left | right | lia].
  unfold emax, prec.
  replace (e2 <=? 1024 - 53) with true by (symmetry; apply Z.leb_le; lia).
  eauto.
Qed.

Lemma is_double_mantissa s m e :
  is_double (S754_finite s m e) = true → Z.pos m < 2 ^ 53.
Proof.
  unfold is_double, valid_binary, bounded, canonical_mantissa.
  intros H. apply andb_prop in H as [H _]. apply Z.eqb_eq in H.
  rewrite fexp_eq in H.
  pose proof (digits2_pos_lt m) as Hlt.
  assert (Z.pos (digits2_pos m) <= 53) by lia.
  eapply Z.lt_le_trans; [exact Hlt|].
  apply Z.pow_le_mono_r; lia.
Qed.

Lemma SFleb_one_exponent s m e :
  SFleb (S754_finite s m e) one = true → s = true ∨ e <= -52.
Proof.
  intros H. destruct s; [by left|]. right. revert H.
  unfold SFleb, SFcompare, one.
  destruct (Z.compare_spec e (-52)); intros; lia || done.
Qed.

(** A coverage in [0,1], the negative zero apart, times 100 is a zero or a
    finite double with the sign bit clear. *)
Lemma unit_times_hundred f :
  is_double f = true → SFleb zero f = true → SFleb f one = true →
  f ≠ S754_zero true →
  SFmul prec emax f hundred = S754_zero false ∨
  ∃ m e, SFmul prec emax f hundred = S754_finite false m e.
Proof.
  intros Hd H0 H1 Hnz. destruct f as [[]|[]| |s m e]; try done.
  - by left.
  - destruct s; [done|].
    apply is_double_mantissa in Hd.
    apply SFleb_one_exponent in H1 as [|He]; [done|].
    unfold SFmul, hundred. simpl xorb.
    apply (binary_round_aux_small false _ _ 110); lia.
Qed.

End Binary64.

(** ** Rounding and digits of the formatter *)

Lemma round_half_even_nonneg m e : 0 <= round_half_even m e.
Proof.
  unfold round_half_even. destruct (0 <=? e) eqn:He.
  - apply Z.leb_le in He. pose proof (Z.pow_pos_nonneg 2 e). lia.
  - apply Z.leb_gt in He.
    assert (0 < 2 ^ (- e)) by (apply Z.pow_pos_nonneg; lia).
    assert (0 <= Z.pos m / 2 ^ (- e)) by (apply Z.div_pos; lia).
    destruct (2 * (Z.pos m mod 2 ^ (- e)) ?= 2 ^ (- e));
      [destruct (Z.even _)| |]; lia.
Qed.

(** The formatter's integer is the nearest one, the even one on a tie. *)
Lemma round_half_even_nearest s m e :
  nearest_integer (S754_finite s m e) (cond_Zopp s (round_half_even m e)).
Proof.
  assert (Hsign : ∀ n a d,
     2 * Z.abs (n * d - a) <= d ∧
       (2 * Z.abs (n * d - a) = d → Z.even n = true) →
     2 * Z.abs (cond_Zopp s n * d - cond_Zopp s a) <= d ∧
       (2 * Z.abs (cond_Zopp s n * d - cond_Zopp s a) = d →
        Z.even (cond_Zopp s n) = true)).
  { intros n a d. destruct s; simpl; [|done].
    rewrite Z.even_opp. replace (- n * d - - a) with (- (n * d - a)) by lia.
    by rewrite Z.abs_opp. }
  unfold nearest_integer. cbv zeta.
  replace (cond_Zopp s (Z.pos m) * 2 ^ Z.max 0 e)
    with (cond_Zopp s (Z.pos m * 2 ^ Z.max 0 e))
    by (destruct s; simpl; lia).
  apply Hsign. unfold round_half_even. destruct (0 <=? e) eqn:He.
  - apply Z.leb_le in He.
    replace (Z.max 0 e) with e by lia.
    replace (Z.max 0 (- e)) with 0 by lia.
    simpl (2 ^ 0). rewrite Z.mul_1_r, Z.sub_diag. simpl. lia.
  - apply Z.leb_gt in He.
    replace (Z.max 0 e) with 0 by lia.
    replace (Z.max 0 (- e)) with (- e) by lia.
    simpl (2 ^ 0). rewrite Z.mul_1_r.
    set (d := 2 ^ (- e)).
    assert (Hd : 0 < d) by (apply Z.pow_pos_nonneg; lia).
    pose proof (Z.div_mod (Z.pos m) d ltac:(lia)) as Hdm.
    pose proof (Z.mod_pos_bound (Z.pos m) d Hd) as Hr.
    set (q := Z.pos m / d) in *. set (r := Z.pos m mod d) in *.
    rewrite (Z.mul_comm d q) in Hdm.
    destruct (Z.compare_spec (2 * r) d) as [Heq|Hlt|Hgt].
    + destruct (Z.even q) eqn:Hev.
      * split; [lia|done].
      * split; [lia|]. intros _. rewrite Z.even_add, Hev. done.
    + split; lia.
    + split; lia.
Qed.

Lemma string_of_uint_digits d : all_digits (NilEmpty.string_of_uint d) = true.
Proof. induction d; simpl; auto. Qed.

Lemma N_to_uint_nonnil n : N.to_uint n ≠ Decimal.Nil.
Proof. destruct n; simpl; [done|]. apply Unsigned.to_uint_nonnil. Qed.

Lemma decimal_unsigned n : unsigned_integer (decimal n) = true.
Proof.
  unfold unsigned_integer, decimal.
  rewrite string_of_uint_digits, andb_true_r.
  pose proof (N_to_uint_nonnil (Z.to_N n)) as H.
  destruct (N.to_uint (Z.to_N n)); done.
Qed.

Lemma decimal_int_nonneg n : 0 <= n → decimal_int n = decimal n.
Proof.
  intros Hn. unfold decimal_int.
  replace (n <? 0) with false by (symmetry; apply Z.ltb_ge; lia).
  by rewrite Z.abs_eq.
Qed.

(** What lines 15-16 make of a coverage in [0,1]. *)
Lemma unit_percent c :
  numeric c = true → in_unit_interval c = true →
  c ≠ VFloat (S754_zero true) →
  ∃ p n, py_mul c 100 = inr p ∧ rounds_to p n ∧ 0 <= n ∧
         format_0f p = inr (decimal n).
Proof.
  intros Hnum Hunit Hnz. destruct c as [| |z|f| | |]; try done.
  - simpl in Hunit. apply andb_prop in Hunit as [H0%Z.leb_le H1%Z.leb_le].
    assert (z = 0 ∨ z = 1) as [-> | ->] by lia.
    + exists (VInt 0), 0. repeat split. lia.
    + exists (VInt 100), 100. repeat split. lia.
  - simpl in Hnum, Hunit. apply andb_prop in Hunit as [H0 H1].
    exists (VFloat (SFmul prec emax f hundred)).
    destruct (Binary64.unit_times_hundred f) as [Hz | (m & e & Hf)]; try done.
    { congruence. }
    + exists 0. rewrite py_mul_float. unfold rounds_to, format_0f.
      rewrite Hz. repeat split. lia.
    + exists (round_half_even m e). rewrite py_mul_float.
      unfold rounds_to, format_0f. rewrite Hf.
      split; [done|]. split; [apply (round_half_even_nearest false)|].
      split; [apply round_half_even_nonneg | done].
Qed.

(** Rewrites the run of a well-formed report into the line printed for its
    first match: [Hp] and [Hs] give the product and its format. *)
Ltac first_match_emits Hwf Hts Hr Hc Hp Hs :=
  rewrite (run_first_match _ _ _ _ Hwf Hts _ _ Hr Hc);
  rewrite (emit_ok _ _ _ _ Hp Hs).

(** ** The specification's scenario and the edges of the formatter *)

Example scenario_beta :
  let o := run ["extract_coverage.py"; "beta"] (inr sample) in
  output o = "50" +:+ nl ∧ status o = 0.
Proof. by vm_compute. Qed.

Example scenario_gamma :
  let o := run ["extract_coverage.py"; "gamma"] (inr sample) in
  output o = "" ∧ status o = 1.
Proof. by vm_compute. Qed.

Example scenario_empty_input :
  let o := run ["extract_coverage.py"; "beta"] (inl JSONDecodeError) in
  output o = "" ∧ status o = 1 ∧ stdin_read (snd o) = true.
Proof. by vm_compute. Qed.

Example scenario_no_argument :
  let o := run ["extract_coverage.py"] (inr sample) in
  output o = "" ∧ errput o = usage "extract_coverage.py" +:+ nl ∧ status o = 1.
Proof. by vm_compute. Qed.

(** [0.005] is the double [5764607523034235 * 2^-60], a little above
    5/1000; its product with 100 still rounds to the double [0.5]. *)
Example parse_0_005 :
  float_of_ratio 5 1000 = S754_finite false 5764607523034235 (-60) ∧
  SFmul prec emax (float_of_ratio 5 1000) hundred = float_of_ratio 1 2.
Proof. by vm_compute. Qed.

Example format_edges :
  float_0f (float_of_ratio 1 2) = "0" ∧
  float_0f (float_of_ratio 3 2) = "2" ∧
  float_0f (float_of_ratio 5 2) = "2" ∧
  float_0f (S754_zero true) = "-0" ∧
  format_0f (VInt (10 ^ 402)) = inl OverflowError.
Proof. by vm_compute. Qed.

Example emit_out_of_range :
  output (emit (VFloat (float_of_ratio (-1) 2)) (loaded [] (inl TypeError)))
    = "-50" +:+ nl ∧
  output (emit (VInt 2) (loaded [] (inl TypeError))) = "200" +:+ nl ∧
  output (emit (VFloat (S754_infinity false)) (loaded [] (inl TypeError)))
    = "inf" +:+ nl.
Proof. by vm_compute. Qed.

(** ** Products that are printed as their rounding *)

Lemma string_app_assoc (a b c : string) : (a +:+ b) +:+ c = a +:+ b +:+ c.
Proof.
  induction a as [|x a IH]; [done|].
  change (String x ((a +:+ b) +:+ c) = String x (a +:+ b +:+ c)).
  by rewrite IH.
Qed.

(** Outside [-0.5, -0.0] the formatter's integer is not zero. *)
Lemma round_half_even_positive m e :
  (e <? 0) && (2 * Z.pos m <=? 2 ^ (- e)) = false →
  1 <= round_half_even m e.
Proof.
  intros H. unfold round_half_even. destruct (0 <=? e) eqn:He.
  - apply Z.leb_le in He.
    assert (0 < 2 ^ e) by (apply Z.pow_pos_nonneg; lia). nia.
  - apply Z.leb_gt in He.
    replace (e <? 0) with true in H by (symmetry; apply Z.ltb_lt; lia).
    simpl in H. apply Z.leb_gt in H.
    set (d := 2 ^ (- e)) in *.
    assert (Hd : 0 < d) by (apply Z.pow_pos_nonneg; lia).
    pose proof (Z.div_mod (Z.pos m) d ltac:(lia)) as Hdm.
    pose proof (Z.mod_pos_bound (Z.pos m) d Hd) as Hr.
    assert (Hq : 0 <= Z.pos m / d) by (apply Z.div_pos; lia).
    set (q := Z.pos m / d) in *. set (r := Z.pos m mod d) in *.
    destruct (Z.compare_spec (2 * r) d) as [Heq|Hlt|Hgt].
    + destruct (Z.even q); nia.
    + nia.
    + lia.
Qed.

(** A negative integer is printed with its sign. *)
Lemma decimal_int_signed s n :
  1 <= n → decimal_int (cond_Zopp s n) = sign_str s +:+ decimal n.
Proof.
  intros Hn. unfold decimal_int. destruct s; simpl.
  - replace (- n <? 0) with true by (symmetry; apply Z.ltb_lt; lia).
    by rewrite Z.abs_opp, Z.abs_eq by lia.
  - replace (n <? 0) with false by (symmetry; apply Z.ltb_ge; lia).
    by rewrite Z.abs_eq by lia.
Qed.

(** An int that a finite float stands for is the formatter's integer. *)
Lemma int_value_round s m e z :
  int_value (S754_finite s m e) = Some z →
  1 <= round_half_even m e ∧ z = cond_Zopp s (round_half_even m e).
Proof.
  unfold int_value, round_half_even. destruct (0 <=? e) eqn:He.
  - apply Z.leb_le in He. intros [= <-]. split; [|done].
    assert (0 < 2 ^ e) by (apply Z.pow_pos_nonneg; lia). nia.
  - apply Z.leb_gt in He.
    set (d := 2 ^ (- e)).
    assert (Hd : 0 < d) by (apply Z.pow_pos_nonneg; lia).
    destruct (Z.pos m mod d =? 0) eqn:Hmod; [|done].
    apply Z.eqb_eq in Hmod. intros [= <-].
    pose proof (Z.div_mod (Z.pos m) d ltac:(lia)) as Hdm.
    rewrite Hmod in *. rewrite Z.mul_0_r.
    replace (0 ?= d) with Lt by (symmetry; by apply Z.compare_lt_iff).
    split; [|done]. nia.
Qed.

(** What the formatter makes of a product that is printed as its rounding. *)
Lemma plain_product_format p :
  plain_product p = true →
  ∃ n, rounds_to p n ∧ format_0f p = inr (decimal_int n).
Proof.
  destruct p as [| |z|f| | |]; try done; unfold plain_product.
  - unfold format_0f. destruct (float_of_int z) as [|f] eqn:Hf; [done|].
    destruct (int_value f) as [z'|] eqn:Hv; [|done].
    intros ->%Z.eqb_eq. exists z. split; [done|]. f_equal.
    destruct f as [s| | |s m e]; try done.
    + injection Hv as <-. by injection Hf as <-.
    + apply int_value_round in Hv as [Hpos ->].
      by rewrite decimal_int_signed.
  - destruct f as [[]| | |s m e]; try done.
    + intros _. by exists 0.
    + unfold is_finite, rounds_to_negative_zero. cbn [andb].
      intros Hz. exists (cond_Zopp s (round_half_even m e)).
      split; [apply round_half_even_nearest|].
      unfold format_0f, float_0f. f_equal.
      destruct s; cbn [andb negb] in Hz.
      * apply negb_true_iff in Hz.
        by rewrite decimal_int_signed by (by apply round_half_even_positive).
      * cbn [cond_Zopp sign_str]. rewrite decimal_int_nonneg; [done|].
        apply round_half_even_nonneg.
Qed.

(** Every coverage in [0,1], the negative zero apart, has such a product. *)
Lemma unit_product_plain c :
  numeric c = true → in_unit_interval c = true →
  c ≠ VFloat (S754_zero true) →
  ∃ p, py_mul c 100 = inr p ∧ plain_product p = true.
Proof.
  intros Hnum Hunit Hnz. destruct c as [| |z|f| | |]; try done.
  - simpl in Hunit. apply andb_prop in Hunit as [H0%Z.leb_le H1%Z.leb_le].
    assert (z = 0 ∨ z = 1) as [-> | ->] by lia.
    + by exists (VInt 0).
    + by exists (VInt 100).
  - simpl in Hnum, Hunit. apply andb_prop in Hunit as [H0 H1].
    exists (VFloat (SFmul prec emax f hundred)).
    split; [apply py_mul_float|].
    destruct (Binary64.unit_times_hundred f) as [-> | (m & e & ->)];
      try done.
    congruence.
Qed.

(** The lines for coverages off the unit interval, and for the two
    coverages whose product is not printed as its rounding. *)
Example off_range_lines :
  output (run ["extract_coverage.py"; "high"] (inr off_range)) = "150" +:+ nl ∧
  output (run ["extract_coverage.py"; "low"] (inr off_range)) = "-50" +:+ nl ∧
  output (run ["extract_coverage.py"; "twice"] (inr off_range)) = "200" +:+ nl ∧
  output (run ["extract_coverage.py"; "nan"] (inr unroundable)) = "nan" +:+ nl ∧
  output (run ["extract_coverage.py"; "wide"] (inr unroundable))
    = "900719925474099328" +:+ nl.
Proof. by vm_compute. Qed.

(** * The claims *)

(** C1, amended.  For every well-formed report whose first target named
    [N], in array order, has a [lineCoverage] [c] whose product [c * 100] is
    printed as its rounding (a finite float outside [-0.5, -0.0], or an int
    that a double holds exactly), the invocation with the single argument
    [N] prints exactly one line, the decimal numeral of [round(c * 100)]
    (the integer nearest to the Python product, ties to even), and exits
    with status 0. *)
Theorem C1_first_match_prints_rounded_percent prog N j ts r c p :
  well_formed j = true → targets j = Some ts →
  find (named N) ts = Some r → field r "lineCoverage" = Some c →
  py_mul c 100 = inr p → plain_product p = true →
  ∃ n, rounds_to p n ∧
    let o := run [prog; N] (inr j) in
    output o = decimal_int n +:+ nl ∧ status o = 0.
Proof.
  intros Hwf Hts Hr Hc Hp Hplain.
  destruct (plain_product_format p Hplain) as (n & Hn & Hs).
  exists n. split; [done|]. cbv zeta.
  first_match_emits Hwf Hts Hr Hc Hp Hs.
  by split.
Qed.

(** The scenario of the specification, and coverages off the unit
    interval: [0.5] gives [50], [1.5] gives [150], [-0.5] gives [-50] and
    the int [2] gives [200]. *)
Lemma C1_witness :
  (well_formed sample = true ∧ well_formed off_range = true) ∧
  (∃ n, rounds_to (VFloat (float_of_ratio 50 1)) n ∧
     let o := run ["extract_coverage.py"; "beta"] (inr sample) in
     output o = decimal_int n +:+ nl ∧ status o = 0) ∧
  (∃ n, rounds_to (VFloat (float_of_ratio 150 1)) n ∧
     let o := run ["extract_coverage.py"; "high"] (inr off_range) in
     output o = decimal_int n +:+ nl ∧ status o = 0) ∧
  (∃ n, rounds_to (VFloat (float_of_ratio (-50) 1)) n ∧
     let o := run ["extract_coverage.py"; "low"] (inr off_range) in
     output o = decimal_int n +:+ nl ∧ status o = 0) ∧
  (∃ n, rounds_to (VInt 200) n ∧
     let o := run ["extract_coverage.py"; "twice"] (inr off_range) in
     output o = decimal_int n +:+ nl ∧ status o = 0).
Proof.
  split; [by vm_compute|]. repeat split.
  - apply (C1_first_match_prints_rounded_percent
             "extract_coverage.py" "beta" sample sample_targets
             (record "beta" (VFloat (float_of_ratio 1 2)))
             (VFloat (float_of_ratio 1 2)));
      vm_compute; reflexivity.
  - apply (C1_first_match_prints_rounded_percent
             "extract_coverage.py" "high" off_range off_range_targets
             (record "high" (VFloat (float_of_ratio 3 2)))
             (VFloat (float_of_ratio 3 2)));
      vm_compute; reflexivity.
  - apply (C1_first_match_prints_rounded_percent
             "extract_coverage.py" "low" off_range off_range_targets
             (record "low" (VFloat (float_of_ratio (-1) 2)))
             (VFloat (float_of_ratio (-1) 2)));
      vm_compute; reflexivity.
  - apply (C1_first_match_prints_rounded_percent
             "extract_coverage.py" "twice" off_range off_range_targets
             (record "twice" (VInt 2)) (VInt 2));
      vm_compute; reflexivity.
Defined.

(** C1 as stated fails, in each way the amended claim leaves out.  In a
    report with the targets [N: -0.0] and [N: 1] the script prints [-0]:
    that is not [round(1 * 100)], so a target named [N] other than the
    first is not the one reported; and it is not the numeral of
    [round(-0.0 * 100) = 0] either, so a product in [-0.5, -0.0] is not
    printed as its rounding.  A coverage NaN is printed as [nan], and
    [round] has no value there.  The int coverage [2^53 + 1] is printed as
    [900719925474099328], not as [900719925474099300]: no double holds
    the product. *)
Lemma C1_counterexample :
  ¬ (∀ prog N j ts r c,
       well_formed j = true → targets j = Some ts →
       In r ts → named N r = true → field r "lineCoverage" = Some c →
       in_unit_interval c = true → c ≠ VFloat (S754_zero true) →
       ∃ p n, py_mul c 100 = inr p ∧ rounds_to p n ∧
         let o := run [prog; N] (inr j) in
         output o = decimal_int n +:+ nl ∧ status o = 0) ∧
  ¬ (∀ prog N j ts r c,
       well_formed j = true → targets j = Some ts →
       find (named N) ts = Some r → field r "lineCoverage" = Some c →
       in_unit_interval c = true →
       ∃ p n, py_mul c 100 = inr p ∧ rounds_to p n ∧
         let o := run [prog; N] (inr j) in
         output o = decimal_int n +:+ nl ∧ status o = 0) ∧
  ¬ (∀ prog N j ts r f,
       well_formed j = true → targets j = Some ts →
       find (named N) ts = Some r →
       field r "lineCoverage" = Some (VFloat f) →
       rounds_to_negative_zero (SFmul prec emax f hundred) = false →
       ∃ p n, py_mul (VFloat f) 100 = inr p ∧ rounds_to p n ∧
         let o := run [prog; N] (inr j) in
         output o = decimal_int n +:+ nl ∧ status o = 0) ∧
  ¬ (∀ prog N j ts r z,
       well_formed j = true → targets j = Some ts →
       find (named N) ts = Some r →
       field r "lineCoverage" = Some (VInt z) →
       ∃ p n, py_mul (VInt z) 100 = inr p ∧ rounds_to p n ∧
         let o := run [prog; N] (inr j) in
         output o = decimal_int n +:+ nl ∧ status o = 0).
Proof.
  split; [|split; [|split]]; intros H.
  - destruct (H "extract_coverage.py" "N" signed_duplicates
                signed_duplicate_targets (record "N" (VInt 1)) (VInt 1))
      as (p & n & Hp & Hn & Hout & _); try (vm_compute; reflexivity).
    { right. by left. }
    { discriminate. }
    injection Hp as <-. simpl in Hn. subst n.
    vm_compute in Hout. discriminate.
  - destruct (H "extract_coverage.py" "N" signed_duplicates
                signed_duplicate_targets
                (record "N" (VFloat (S754_zero true))) (VFloat (S754_zero true)))
      as (p & n & Hp & Hn & Hout & _); try (vm_compute; reflexivity).
    rewrite py_mul_float in Hp. injection Hp as <-.
    change (n = 0) in Hn. subst n.
    vm_compute in Hout. discriminate.
  - destruct (H "extract_coverage.py" "nan" unroundable unroundable_targets
                (record "nan" (VFloat S754_nan)) S754_nan)
      as (p & n & Hp & Hn & _); try (vm_compute; reflexivity).
    rewrite py_mul_float in Hp. injection Hp as <-. exact Hn.
  - destruct (H "extract_coverage.py" "wide" unroundable unroundable_targets
                (record "wide" (VInt 9007199254740993)) 9007199254740993)
      as (p & n & Hp & Hn & Hout & _); try (vm_compute; reflexivity).
    injection Hp as <-. simpl in Hn. subst n.
    vm_compute in Hout. discriminate.
Qed.

(** C2.  For every well-formed report in which no record of [targets] has
    the name [N], the invocation with the argument [N] writes nothing to
    standard output and exits with status 1, through the final [exit(1)]. *)
Theorem C2_absent_name_exits_1_silently prog N j ts :
  well_formed j = true → targets j = Some ts →
  (∀ e, In e ts → field e "name" ≠ Some (VStr N)) →
  let o := run [prog; N] (inr j) in
  output o = "" ∧ status o = 1 ∧ fst o = inl (SystemExit 1).
Proof.
  intros Hwf Hts Hno. cbv zeta.
  by rewrite (run_no_match prog N j ts Hwf Hts (absent_not_named _ _ Hno)).
Qed.

Lemma C2_witness :
  (well_formed sample = true ∧ targets sample = Some sample_targets) ∧
  let o := run ["extract_coverage.py"; "gamma"] (inr sample) in
  output o = "" ∧ status o = 1 ∧ fst o = inl (SystemExit 1).
Proof.
  split; [by vm_compute|].
  apply (C2_absent_name_exits_1_silently
           "extract_coverage.py" "gamma" sample sample_targets);
    try (vm_compute; reflexivity).
  intros e [<-|[<-|[]]]; vm_compute; discriminate.
Defined.

(** C3.  For every invocation with no positional argument or with two or
    more, the script prints the line [Usage: <program> frameworkname] to
    standard error and exits with status 1, whatever waits on standard
    input: nothing is printed on standard output and standard input is
    left unread. *)
Theorem C3_wrong_argument_count_usage prog args d :
  length args ≠ 1%nat →
  let o := run (prog :: args) d in
  errput o = "Usage: " +:+ prog +:+ " frameworkname" +:+ nl ∧
  output o = "" ∧ status o = 1 ∧
  stdin_read (snd o) = false ∧ stdin (snd o) = d.
Proof.
  intros Hlen. cbv zeta. rewrite run_usage by done.
  split; [|done]. unfold errput, usage. cbn [snd stderr].
  by rewrite !string_app_assoc.
Qed.

Lemma C3_witness :
  length ["alpha"; "beta"] ≠ 1%nat ∧
  let o := run ["extract_coverage.py"; "alpha"; "beta"] (inr sample) in
  errput o = "Usage: extract_coverage.py frameworkname" +:+ nl ∧
  output o = "" ∧ status o = 1 ∧
  stdin_read (snd o) = false ∧ stdin (snd o) = inr sample.
Proof.
  split; [simpl; lia|].
  apply (C3_wrong_argument_count_usage
           "extract_coverage.py" ["alpha"; "beta"] (inr sample)).
  simpl. lia.
Defined.

(** C4, amended.  When standard input does not parse (empty input, syntax
    error), or is no object with a [targets] key, or has a [targets] that
    is no array, or an entry not after the first one named [N] lacks
    [name], or the first entry named [N] lacks [lineCoverage], the script
    exits with a non-zero status and writes nothing to standard output. *)
Theorem C4_malformed_input_fails_silently prog N d :
  malformed N d →
  let o := run [prog; N] d in status o ≠ 0 ∧ output o = "".
Proof.
  intros H. cbv zeta. unfold status, output. destruct H.
  - by rewrite run_parse_failure.
  - destruct (run_no_targets prog N j) as [err ->]; done.
  - destruct (run_targets_not_array prog N j t) as (h & -> & Hh); try done.
    simpl fst. by rewrite Hh.
  - destruct (run_broken_entry prog N j ts pre e post) as [err ->]; try done.
    intros w. by apply visit_no_name.
  - destruct (run_broken_entry prog N j ts pre e post) as [err ->]; try done.
    intros w. by apply visit_named_no_coverage.
Qed.

Lemma C4_witness :
  malformed "N" (inr nameless_first) ∧
  let o := run ["extract_coverage.py"; "N"] (inr nameless_first) in
  status o ≠ 0 ∧ output o = "".
Proof.
  assert (H : malformed "N" (inr nameless_first)).
  { by apply (entry_without_name "N" nameless_first
                [nameless; record "N" (VFloat (float_of_ratio 1 2))]
                [] nameless [record "N" (VFloat (float_of_ratio 1 2))]). }
  split; [exact H|].
  exact (C4_malformed_input_fails_silently
           "extract_coverage.py" "N" (inr nameless_first) H).
Defined.

(** C4 as stated fails: with an entry lacking [lineCoverage] before the
    match and an entry lacking every field after it the input is no
    well-formed report, and the script prints [50] and exits with 0. *)
Lemma C4_counterexample :
  ¬ (∀ prog N j, well_formed j = false →
       let o := run [prog; N] (inr j) in status o ≠ 0 ∧ output o = "").
Proof.
  intros H.
  destruct (H "extract_coverage.py" "N" junk_around) as [Hs _].
  - by vm_compute.
  - apply Hs. by vm_compute.
Qed.

(** C5.  For every well-formed report in which two or more records of
    [targets] have the name [N], the invocation with the argument [N]
    reports the [lineCoverage] of the first of them in array order: the run
    is lines 15-16 on that value, straight after the load, and when its
    formatted percentage is [s] the output is the line [s] and the status
    is 0. *)
Theorem C5_first_of_duplicates_reported prog N j ts r c :
  well_formed j = true → targets j = Some ts →
  (1 < length (filter (λ e, named N e = true) ts))%nat →
  find (named N) ts = Some r → field r "lineCoverage" = Some c →
  let o := run [prog; N] (inr j) in
  o = emit c (loaded [prog; N] (inr j)) ∧
  ∀ p s, py_mul c 100 = inr p → format_0f p = inr s →
         output o = s +:+ nl ∧ status o = 0.
Proof.
  intros Hwf Hts _ Hr Hc. cbv zeta.
  rewrite (run_first_match prog N j ts Hwf Hts r c Hr Hc).
  split; [done|]. intros p s Hp Hs. by rewrite (emit_ok _ _ _ _ Hp Hs).
Qed.

Lemma C5_witness :
  (well_formed duplicates = true ∧
   (1 < length (filter (λ e, named "N" e = true) duplicate_targets))%nat ∧
   find (named "N") duplicate_targets = Some (record "N" (VInt 0))) ∧
  let o := run ["extract_coverage.py"; "N"] (inr duplicates) in
  o = emit (VInt 0) (loaded ["extract_coverage.py"; "N"] (inr duplicates)) ∧
  ∀ p s, py_mul (VInt 0) 100 = inr p → format_0f p = inr s →
         output o = s +:+ nl ∧ status o = 0.
Proof.
  split; [repeat split; vm_compute; (reflexivity || lia)|].
  apply (C5_first_of_duplicates_reported
           "extract_coverage.py" "N" duplicates duplicate_targets
           (record "N" (VInt 0)));
    vm_compute; (reflexivity || lia).
Defined.

(** C6, amended.  For every successful invocation whose matched target
    has a [lineCoverage] in [0,1] other than the float negative zero, the
    whole standard output is one line holding a non-empty run of decimal
    digits: no decimal point, no sign, no separator. *)
Theorem C6_unit_coverage_prints_unsigned_integer prog N j ts r c :
  well_formed j = true → targets j = Some ts →
  find (named N) ts = Some r → field r "lineCoverage" = Some c →
  in_unit_interval c = true → c ≠ VFloat (S754_zero true) →
  let o := run [prog; N] (inr j) in
  status o = 0 ∧
  ∃ digits, output o = digits +:+ nl ∧ unsigned_integer digits = true.
Proof.
  intros Hwf Hts Hr Hc Hunit Hnz. cbv zeta.
  pose proof (first_match_numeric N j ts Hwf Hts r c Hr Hc) as Hnum.
  destruct (unit_percent c Hnum Hunit Hnz) as (p & n & Hp & _ & _ & Hs).
  first_match_emits Hwf Hts Hr Hc Hp Hs.
  split; [done|]. exists (decimal n). split; [done|]. apply decimal_unsigned.
Qed.

Lemma C6_witness :
  (well_formed sample = true ∧
   find (named "alpha") sample_targets
     = Some (record "alpha" (VFloat (float_of_ratio 873 1000))) ∧
   in_unit_interval (VFloat (float_of_ratio 873 1000)) = true) ∧
  let o := run ["extract_coverage.py"; "alpha"] (inr sample) in
  status o = 0 ∧
  ∃ digits, output o = digits +:+ nl ∧ unsigned_integer digits = true.
Proof.
  split; [by vm_compute|].
  apply (C6_unit_coverage_prints_unsigned_integer
           "extract_coverage.py" "alpha" sample sample_targets
           (record "alpha" (VFloat (float_of_ratio 873 1000)))
           (VFloat (float_of_ratio 873 1000)));
    try (vm_compute; reflexivity).
  discriminate.
Defined.

(** C6 as stated fails: [-0.0] lies in [0,1] and the script prints [-0]. *)
Lemma C6_counterexample :
  ¬ (∀ prog N j ts r c,
       well_formed j = true → targets j = Some ts →
       find (named N) ts = Some r → field r "lineCoverage" = Some c →
       in_unit_interval c = true →
       let o := run [prog; N] (inr j) in
       status o = 0 ∧
       ∃ digits, output o = digits +:+ nl ∧ unsigned_integer digits = true).
Proof.
  intros H.
  destruct (H "extract_coverage.py" "N" negative_zero
              [record "N" (VFloat (S754_zero true))]
              (record "N" (VFloat (S754_zero true))) (VFloat (S754_zero true)))
    as (_ & digits & Hout & Hdigits); try (vm_compute; reflexivity).
  change (output _) with ("-0" +:+ nl) in Hout.
  destruct digits as [|a [|b [|c rest]]]; try discriminate Hout.
  - injection Hout as <- <-. discriminate Hdigits.
  - injection Hout as _ _ _ Hrest. destruct rest; discriminate Hrest.
Qed.

(** C7.  For a well-formed report whose matched target has
    [lineCoverage = 0.005], the output is the line [1] or the line [0];
    the formatter settles half-way cases for the even integer and the
    double product is exactly one half, so it is the line [0]. *)
Theorem C7_half_percent_boundary prog N j ts r :
  well_formed j = true → targets j = Some ts →
  find (named N) ts = Some r →
  field r "lineCoverage" = Some (VFloat (float_of_ratio 5 1000)) →
  let o := run [prog; N] (inr j) in
  (output o = "1" +:+ nl ∨ output o = "0" +:+ nl) ∧ output o = "0" +:+ nl.
Proof.
  intros Hwf Hts Hr Hc. cbv zeta.
  rewrite (run_first_match prog N j ts Hwf Hts r _ Hr Hc).
  rewrite (emit_ok _ (VFloat (float_of_ratio 1 2)) "0")
    by (vm_compute; reflexivity).
  split; [right|]; reflexivity.
Qed.

Lemma C7_witness :
  (well_formed boundary = true ∧
   field (record "N" (VFloat (float_of_ratio 5 1000))) "lineCoverage"
     = Some (VFloat (float_of_ratio 5 1000))) ∧
  let o := run ["extract_coverage.py"; "N"] (inr boundary) in
  (output o = "1" +:+ nl ∨ output o = "0" +:+ nl) ∧ output o = "0" +:+ nl.
Proof.
  split; [by vm_compute|].
  apply (C7_half_percent_boundary
           "extract_coverage.py" "N" boundary
           [record "N" (VFloat (float_of_ratio 5 1000))]
           (record "N" (VFloat (float_of_ratio 5 1000))));
    vm_compute; reflexivity.
Defined.

(** C8, amended.  Two invocations with the same positional arguments and
    the same standard input have the same standard output and the same
    exit status; when the program name [sys.argv[0]] is the same as well,
    they have the same standard error. *)
Theorem C8_output_and_status_determined_by_arguments_and_input av1 av2 d :
  tail av1 = tail av2 →
  output (run av1 d) = output (run av2 d) ∧
  status (run av1 d) = status (run av2 d) ∧
  (head av1 = head av2 → errput (run av1 d) = errput (run av2 d)).
Proof.
  intros Htl.
  assert (Hsame : head av1 = head av2 → av1 = av2).
  { destruct av1, av2; simpl in *; congruence. }
  assert (Hshort : ∀ av, tail av = [] →
            output (run av d) = "" ∧ status (run av d) = 1).
  { intros [|prog [|]] H; done. }
  assert (Hlong : ∀ av x y l, tail av = x :: y :: l →
            output (run av d) = "" ∧ status (run av d) = 1).
  { intros [|prog args] x y l H; [done|]. simpl in H. subst args.
    by rewrite run_usage. }
  assert (Hboth : output (run av1 d) = output (run av2 d) ∧
                  status (run av1 d) = status (run av2 d)).
  { destruct (tail av2) as [|N [|y l]] eqn:E2.
    - destruct (Hshort av1 Htl) as [-> ->].
      by destruct (Hshort av2 E2) as [-> ->].
    - destruct av1 as [|p1 a1], av2 as [|p2 a2]; try done.
      simpl in *. subst. unfold status.
      by destruct (run_program_name p1 p2 N d) as [-> ->].
    - destruct (Hlong av1 _ _ _ Htl) as [-> ->].
      by destruct (Hlong av2 _ _ _ E2) as [-> ->]. }
  destruct Hboth as [Hout Hst]. split; [done|]. split; [done|].
  by intros ->%Hsame.
Qed.

Lemma C8_witness :
  tail ["./extract_coverage.py"; "beta"] = tail ["extract_coverage.py"; "beta"] ∧
  output (run ["./extract_coverage.py"; "beta"] (inr sample)) =
    output (run ["extract_coverage.py"; "beta"] (inr sample)) ∧
  status (run ["./extract_coverage.py"; "beta"] (inr sample)) =
    status (run ["extract_coverage.py"; "beta"] (inr sample)).
Proof.
  split; [reflexivity|].
  pose proof (C8_output_and_status_determined_by_arguments_and_input
                ["./extract_coverage.py"; "beta"] ["extract_coverage.py"; "beta"]
                (inr sample) eq_refl) as (H1 & H2 & _).
  split; [exact H1 | exact H2].
Defined.

(** C8 as stated fails: with no positional argument and the same standard
    input, the usage line shows the program name as it was invoked. *)
Lemma C8_counterexample :
  ¬ (∀ av1 av2 d, tail av1 = tail av2 →
       output (run av1 d) = output (run av2 d) ∧
       errput (run av1 d) = errput (run av2 d) ∧
       status (run av1 d) = status (run av2 d)).
Proof.
  intros H.
  destruct (H ["./extract_coverage.py"] ["extract_coverage.py"] (inr sample))
    as (_ & Herr & _); [reflexivity|].
  vm_compute in Herr. discriminate.
Qed.

(** C9.  For every report with a record matching [N], when a record
    earlier in [targets] than the first match lacks the [name] key, the
    script ends with an uncaught exception, a non-zero status and nothing
    printed: it does not skip that record. *)
Theorem C9_nameless_entry_before_match_aborts prog N j ts pre bad post m :
  targets j = Some ts → ts = pre ++ bad :: post →
  Forall (λ e, named N e = false) pre →
  bad = VDict m → m !! "name" = None →
  Exists (λ e, named N e = true) post →
  let o := run [prog; N] (inr j) in
  status o ≠ 0 ∧ output o = "" ∧ ∃ err, fst o = inl (Raised err).
Proof.
  intros Hts Hsplit Hpre -> Hm _. cbv zeta.
  destruct (run_broken_entry prog N j ts pre (VDict m) post) as [err ->];
    try done.
  - intros w. by apply visit_no_name.
  - unfold status, output. simpl. eauto.
Qed.

Lemma C9_witness :
  (targets nameless_first
     = Some ([] ++ nameless :: [record "N" (VFloat (float_of_ratio 1 2))]) ∧
   field nameless "name" = None) ∧
  let o := run ["extract_coverage.py"; "N"] (inr nameless_first) in
  status o ≠ 0 ∧ output o = "" ∧ ∃ err, fst o = inl (Raised err).
Proof.
  split; [by vm_compute|].
  apply (C9_nameless_entry_before_match_aborts
           "extract_coverage.py" "N" nameless_first
           [nameless; record "N" (VFloat (float_of_ratio 1 2))]
           [] nameless [record "N" (VFloat (float_of_ratio 1 2))]
           {["lineCoverage" := VFloat (float_of_ratio 1 2)]});
    try reflexivity.
  - constructor.
  - constructor. reflexivity.
Defined.

(** C10, amended.  The script validates no range: for every report, well
    formed but for the range, whose first record named [N] has a numeric
    [lineCoverage] outside [0,1] that is a float, or an int whose product
    with 100 fits a double, the invocation with the argument [N] prints
    [lineCoverage * 100] formatted as one line and exits with status 0. *)
Theorem C10_out_of_range_coverage_is_printed prog N j ts r c :
  well_formed j = true → targets j = Some ts →
  find (named N) ts = Some r → field r "lineCoverage" = Some c →
  in_unit_interval c = false →
  (∀ z, c = VInt z → float_of_int (z * 100) ≠ inl OverflowError) →
  ∃ p s, py_mul c 100 = inr p ∧ format_0f p = inr s ∧
    let o := run [prog; N] (inr j) in
    output o = s +:+ nl ∧ status o = 0.
Proof.
  intros Hwf Hts Hr Hc _ Hfit.
  pose proof (first_match_numeric N j ts Hwf Hts r c Hr Hc) as Hnum.
  assert (∃ p s, py_mul c 100 = inr p ∧ format_0f p = inr s)
    as (p & s & Hp & Hs).
  { destruct c as [| |z|f| | |]; try done.
    - exists (VInt (z * 100)). specialize (Hfit z eq_refl). simpl.
      unfold float_of_int in *.
      destruct (binary_normalize prec emax (z * 100) 0 false); eauto. done.
    - eexists _, _. split; [apply py_mul_float|reflexivity]. }
  exists p, s. split; [done|]. split; [done|]. cbv zeta.
  by first_match_emits Hwf Hts Hr Hc Hp Hs.
Qed.

Lemma C10_witness :
  (well_formed overdrawn = true ∧
   find (named "N") overdrawn_targets
     = Some (record "N" (VFloat (float_of_ratio (-1) 2))) ∧
   in_unit_interval (VFloat (float_of_ratio (-1) 2)) = false) ∧
  ∃ p s, py_mul (VFloat (float_of_ratio (-1) 2)) 100 = inr p ∧
    format_0f p = inr s ∧
    let o := run ["extract_coverage.py"; "N"] (inr overdrawn) in
    output o = s +:+ nl ∧ status o = 0.
Proof.
  split; [by vm_compute|].
  apply (C10_out_of_range_coverage_is_printed
           "extract_coverage.py" "N" overdrawn overdrawn_targets
           (record "N" (VFloat (float_of_ratio (-1) 2))));
    try (vm_compute; reflexivity).
  intros z Hz. discriminate Hz.
Defined.

(** C10 as stated fails: an int [lineCoverage] of 401 digits is numeric and
    outside [0,1]; its product with 100 does not convert to a double, the
    formatter raises [OverflowError] and the status is 1. *)
Lemma C10_counterexample :
  ¬ (∀ prog N j ts r c,
       well_formed j = true → targets j = Some ts →
       find (named N) ts = Some r → field r "lineCoverage" = Some c →
       in_unit_interval c = false →
       ∃ p s, py_mul c 100 = inr p ∧ format_0f p = inr s ∧
         let o := run [prog; N] (inr j) in
         output o = s +:+ nl ∧ status o = 0).
Proof.
  intros H.
  destruct (H "extract_coverage.py" "N" oversized
              [record "N" (VInt (10 ^ 400))]
              (record "N" (VInt (10 ^ 400))) (VInt (10 ^ 400)))
    as (p & s & _ & _ & _ & Hstatus); try (vm_compute; reflexivity).
  vm_compute in Hstatus. discriminate.
Qed.

(** * Further properties of the script *)

(** ** The scan as a function of the entries *)

Lemma visit_outcome N e w :
  visit N e w =
    match entry_outcome N e with
    | None => (inr tt, w)
    | Some r => finish w (Some r)
    end.
Proof.
  unfold visit, entry_outcome, emit, mbind, proc_bind, try.
  destruct (getitem_str e "name") as [err|name]; [done|].
  destruct (py_eq name N); [|done].
  destruct (getitem_str e "lineCoverage") as [err|c]; [done|].
  destruct (py_mul c 100) as [err|p]; [done|].
  by destruct (format_0f p) as [err|s].
Qed.

Lemma scan_outcome N ts w :
  (scan N ts ;; exit 1) w = finish w (first_outcome N ts).
Proof.
  revert w. induction ts as [|e ts IH]; intros w; [done|].
  specialize (IH w). revert IH. unfold mbind, proc_bind.
  rewrite scan_cons, visit_outcome. simpl.
  destruct (entry_outcome N e) as [[err|s]|]; done.
Qed.

(** With one argument and an array under ["targets"], the run ends as the
    first entry that settles anything says. *)
Lemma run_outcome prog N j ts :
  targets j = Some ts →
  run [prog; N] (inr j) = finish (loaded [prog; N] (inr j)) (first_outcome N ts).
Proof. intros Hts. by rewrite (run_targets _ _ _ _ Hts), scan_outcome. Qed.

(** ** Every run *)

Lemma float_0f_text f : percent_text (float_0f f) = true.
Proof.
  destruct f as [[]|[]| |[] m e]; try done; unfold float_0f, sign_str.
  - change ("-" +:+ ?s) with (String "-" s). unfold percent_text.
    rewrite decimal_unsigned. by rewrite !orb_true_r.
  - change ("" +:+ ?s) with s. unfold percent_text.
    rewrite decimal_unsigned. by rewrite !orb_true_r.
Qed.

Lemma format_0f_text p s : format_0f p = inr s → percent_text s = true.
Proof.
  destruct p as [|b|z|f| | |]; simpl; try done.
  - destruct (float_of_int (Z.b2z b)); [done|]. intros [= <-]. apply float_0f_text.
  - destruct (float_of_int z); [done|]. intros [= <-]. apply float_0f_text.
  - intros [= <-]. apply float_0f_text.
Qed.

(** One round of the loop, whatever [j] is: it passes, or it ends the run
    with an exception or with one formatted line. *)
Lemma body_cases N j i w :
  body N j i w = (inr tt, w) ∨
  ∃ r, body N j i w = finish w (Some r) ∧
       ∀ s, r = inr s → percent_text s = true.
Proof.
  unfold body, mbind, proc_bind, try.
  destruct (getitem_str j "targets") as [err|t];
    [right; exists (inl err); by split|].
  destruct (getitem_int t i) as [err|e];
    [right; exists (inl err); by split|].
  destruct (getitem_str e "name") as [err|name];
    [right; exists (inl err); by split|].
  destruct (py_eq name N); [|by left]. right.
  destruct (getitem_str e "lineCoverage") as [err|c];
    [exists (inl err); by split|].
  destruct (py_mul c 100) as [err|p]; [exists (inl err); by split|].
  destruct (format_0f p) as [err|s] eqn:Hs; [exists (inl err); by split|].
  exists (inr s). split; [done|]. intros ? [= <-]. by eapply format_0f_text.
Qed.

Lemma for_range_cases N j i n w :
  for_range (body N j) i n w = (inr tt, w) ∨
  ∃ r, for_range (body N j) i n w = finish w (Some r) ∧
       ∀ s, r = inr s → percent_text s = true.
Proof.
  revert i. induction n as [|n IH]; intros i; [by left|].
  simpl. unfold mbind, proc_bind.
  destruct (body_cases N j i w) as [-> | (r & -> & Hr)]; [apply IH|].
  right. exists r. split; [|done]. by destruct r.
Qed.

(** The three ways a run with one argument ends, all after the load. *)
Lemma run_one_argument prog N d :
  ∃ r, run [prog; N] d = finish (loaded [prog; N] d) r ∧
       ∀ s, r = Some (inr s) → percent_text s = true.
Proof.
  rewrite run_lookup. unfold lookup, mbind, proc_bind, json_load, loaded.
  simpl. destruct d as [err|j]; [by exists (Some (inl err))|].
  unfold try.
  destruct (getitem_str j "targets") as [err|t]; [by exists (Some (inl err))|].
  destruct (py_len t) as [err|n]; [by exists (Some (inl err))|].
  destruct (for_range_cases N j 0 n (World [prog; N] (inr j) true "" ""))
    as [-> | (r & -> & Hr)].
  - by exists None.
  - exists (Some r). split; [by destruct r|]. intros s [= ->]. by apply Hr.
Qed.

(** Every run: no argument vector, a wrong count, or one argument. *)
Lemma run_cases av d :
  run av d = (inl (Raised IndexError), World [] d false "" "") ∨
  (∃ prog args, av = prog :: args ∧ length args ≠ 1%nat ∧
     run av d =
       (inl (SystemExit 1), World av d false "" (usage prog +:+ nl))) ∨
  (∃ r, length av = 2%nat ∧ run av d = finish (loaded av d) r ∧
     ∀ s, r = Some (inr s) → percent_text s = true).
Proof.
  destruct av as [|prog [|N [|x args]]].
  - by left.
  - right. left. exists prog, []. by rewrite run_usage.
  - right. right. destruct (run_one_argument prog N d) as (r & Hr & Hs). eauto.
  - right. left. exists prog, (N :: x :: args).
    rewrite run_usage by (simpl; lia). split; [done|]. split; [simpl; lia|done].
Qed.

(** X1.  Whatever the command line and whatever waits on standard input,
    the exit status is 0 or 1, and it is 0 exactly when something was
    printed: then standard output is one line, digits with or without a
    minus sign, or [nan], [inf], [-inf]; with status 1 it is empty. *)
Theorem X1_one_line_exactly_on_success av d :
  let o := run av d in
  (status o = 0 ∧ ∃ s, output o = s +:+ nl ∧ percent_text s = true) ∨
  (status o = 1 ∧ output o = "").
Proof.
  cbv zeta.
  destruct (run_cases av d)
    as [-> | [(prog & args & -> & _ & ->) | (r & _ & -> & Hr)]];
    [by right | by right |].
  destruct r as [[err|s]|]; [by right| |by right].
  left. split; [done|]. exists s. split; [done|]. by apply Hr.
Qed.

(** X2.  Standard input is consumed exactly when the command line has one
    positional argument: a wrong count ends the run before [json.load], and
    with the right count the input is read to its end even when it does
    not parse or the scan stops early. *)
Theorem X2_stdin_consumed_iff_one_argument av d :
  stdin_read (snd (run av d)) = true ↔ length av = 2%nat.
Proof.
  destruct (run_cases av d)
    as [H | [(prog & args & -> & Hlen & ->) | (r & Hlen & -> & _)]].
  - pose proof (f_equal (λ o, argv (snd o)) H) as Hav. simpl in Hav.
    rewrite H. simpl. split; [done|]. intros Hlen.
    destruct av as [|x [|y [|]]]; try done.
    destruct (run_one_argument x y d) as (r & Hr & _).
    rewrite Hr in Hav. by destruct r as [[|]|].
  - simpl. split; [done|]. intros [=]. done.
  - split; [done|]. intros _. by destruct r as [[|]|].
Qed.

(** X3.  The script writes to standard error only on a wrong argument
    count: with one positional argument it prints nothing there, whatever
    the input and however the run ends. *)
Theorem X3_one_argument_leaves_stderr_alone av d :
  length av = 2%nat → errput (run av d) = "".
Proof.
  intros Hlen. destruct av as [|prog [|N [|]]]; try done.
  destruct (run_one_argument prog N d) as (r & -> & _).
  by destruct r as [[|]|].
Qed.

Lemma X3_witness :
  length ["extract_coverage.py"; "beta"] = 2%nat ∧
  errput (run ["extract_coverage.py"; "beta"] (inl JSONDecodeError)) = "".
Proof.
  split; [reflexivity|].
  by apply (X3_one_argument_leaves_stderr_alone
              ["extract_coverage.py"; "beta"] (inl JSONDecodeError)).
Defined.

(** ** Which entries count *)

Lemma targets_report ts : targets (report ts) = Some ts.
Proof. unfold targets, report, field. by rewrite lookup_singleton_eq. Qed.

Lemma entry_outcome_other N e :
  other_name N e = true → entry_outcome N e = None.
Proof.
  unfold other_name, entry_outcome.
  destruct (field e "name") as [v|] eqn:Hf; [|done].
  rewrite (getitem_field _ _ _ Hf). by destruct (py_eq v N).
Qed.

Lemma entry_outcome_none N e :
  entry_outcome N e = None → other_name N e = true.
Proof.
  unfold other_name, entry_outcome.
  destruct (field e "name") as [v|] eqn:Hf.
  - rewrite (getitem_field _ _ _ Hf). destruct (py_eq v N); [|done].
    destruct (getitem_str e "lineCoverage") as [|c]; [done|].
    destruct (py_mul c 100) as [|p]; [done|]. by destruct (format_0f p).
  - by destruct (getitem_no_field _ _ Hf) as [err ->].
Qed.

Lemma entry_outcome_named N e c :
  named N e = true → field e "lineCoverage" = Some c →
  entry_outcome N e =
    match py_mul c 100 with
    | inl err => Some (inl err)
    | inr p => match format_0f p with
               | inl err => Some (inl err)
               | inr s => Some (inr s)
               end
    end.
Proof.
  intros Hn%named_field Hc. unfold entry_outcome.
  rewrite (getitem_field _ _ _ Hn), (getitem_field _ _ _ Hc). simpl.
  by rewrite bool_decide_eq_true_2.
Qed.

Lemma entry_outcome_settles N e :
  named N e = true → entry_outcome N e ≠ None.
Proof.
  intros Hn Hnone. apply entry_outcome_none in Hnone.
  apply named_field in Hn. unfold other_name in Hnone.
  rewrite Hn in Hnone. simpl in Hnone. by rewrite bool_decide_eq_true_2 in Hnone.
Qed.

Lemma first_outcome_app N l1 l2 :
  first_outcome N (l1 ++ l2) =
    match first_outcome N l1 with
    | Some r => Some r
    | None => first_outcome N l2
    end.
Proof.
  induction l1 as [|e l1 IH]; [done|]. simpl.
  by destruct (entry_outcome N e).
Qed.

Lemma first_outcome_others N pre :
  Forall (λ e, other_name N e = true) pre → first_outcome N pre = None.
Proof.
  induction 1 as [|e pre He _ IH]; [done|]. simpl.
  by rewrite entry_outcome_other.
Qed.

Lemma first_outcome_drop_others N ts :
  first_outcome N (List.filter (λ e, negb (other_name N e)) ts)
    = first_outcome N ts.
Proof.
  induction ts as [|e ts IH]; [done|]. simpl.
  destruct (other_name N e) eqn:He; simpl.
  - by rewrite entry_outcome_other.
  - by rewrite IH.
Qed.

(** Two runs that end the same way show the same status and output. *)
Lemma finish_observed w1 w2 r :
  stdout w1 = stdout w2 →
  fst (finish w1 r) = fst (finish w2 r) ∧
  output (finish w1 r) = output (finish w2 r).
Proof. intros H. destruct r as [[|]|]; simpl; unfold output; simpl; by rewrite ?H. Qed.

(** X4.  Entries that carry a name other than the argument are invisible:
    dropping all of them from [targets] changes neither the way the run
    ends nor what it prints.  Their other fields are never looked at, and a
    name that is no str never matches. *)
Theorem X4_entries_of_other_names_are_invisible prog N j ts :
  targets j = Some ts →
  let o := run [prog; N] (inr j) in
  let o' := run [prog; N]
              (inr (report (List.filter (λ e, negb (other_name N e)) ts))) in
  fst o = fst o' ∧ output o = output o'.
Proof.
  intros Hts. cbv zeta.
  rewrite (run_outcome _ _ _ _ Hts).
  rewrite (run_outcome _ _ _ _ (targets_report _)).
  rewrite first_outcome_drop_others. by apply finish_observed.
Qed.

Lemma X4_witness :
  targets junk_around
    = Some [VDict {["name" := VStr "M"]};
            record "N" (VFloat (float_of_ratio 1 2)); VDict ∅] ∧
  let o := run ["extract_coverage.py"; "N"] (inr junk_around) in
  let o' := run ["extract_coverage.py"; "N"]
              (inr (report (List.filter (λ e, negb (other_name "N" e))
                      [VDict {["name" := VStr "M"]};
                       record "N" (VFloat (float_of_ratio 1 2)); VDict ∅]))) in
  fst o = fst o' ∧ output o = output o'.
Proof.
  split; [by vm_compute|].
  by apply (X4_entries_of_other_names_are_invisible
              "extract_coverage.py" "N" junk_around).
Defined.

(** X5.  Nothing after the first entry named like the argument is ever
    looked at: two inputs whose [targets] agree up to and including that
    entry end the same way and print the same, whatever follows it, well
    formed or not. *)
Theorem X5_entries_after_the_match_are_not_read prog N j j' pre r post post' :
  targets j = Some (pre ++ r :: post) →
  targets j' = Some (pre ++ r :: post') →
  named N r = true →
  let o := run [prog; N] (inr j) in
  let o' := run [prog; N] (inr j') in
  fst o = fst o' ∧ output o = output o'.
Proof.
  intros Hts Hts' Hr. cbv zeta.
  rewrite (run_outcome _ _ _ _ Hts), (run_outcome _ _ _ _ Hts').
  assert (Hsame : first_outcome N (pre ++ r :: post)
                  = first_outcome N (pre ++ r :: post')).
  { rewrite !first_outcome_app. destruct (first_outcome N pre); [done|].
    simpl. pose proof (entry_outcome_settles N r Hr).
    by destruct (entry_outcome N r). }
  rewrite Hsame. by apply finish_observed.
Qed.

Lemma X5_witness :
  (targets junk_around
     = Some ([VDict {["name" := VStr "M"]}]
              ++ record "N" (VFloat (float_of_ratio 1 2)) :: [VDict ∅]) ∧
   named "N" (record "N" (VFloat (float_of_ratio 1 2))) = true) ∧
  let o := run ["extract_coverage.py"; "N"] (inr junk_around) in
  let o' := run ["extract_coverage.py"; "N"]
              (inr (report ([VDict {["name" := VStr "M"]}]
                      ++ record "N" (VFloat (float_of_ratio 1 2)) :: []))) in
  fst o = fst o' ∧ output o = output o'.
Proof.
  split; [by vm_compute|].
  apply (X5_entries_after_the_match_are_not_read
           "extract_coverage.py" "N" junk_around _
           [VDict {["name" := VStr "M"]}]
           (record "N" (VFloat (float_of_ratio 1 2))) [VDict ∅] []);
    by vm_compute.
Defined.

(** ** Which fields count *)

Lemma getitem_str_field e k :
  getitem_str e k =
    match field e k with
    | Some v => inr v
    | None => match e with
              | VDict _ => inl KeyError
              | _ => inl TypeError
              end
    end.
Proof. destruct e; simpl; try done; by destruct (_ !! _). Qed.

Lemma entry_outcome_same_fields N e1 e2 :
  same_fields e1 e2 → same_end (entry_outcome N e1) (entry_outcome N e2).
Proof.
  intros [Hname Hcov]. unfold entry_outcome.
  rewrite !getitem_str_field, <- Hname, <- Hcov.
  destruct (field e1 "name") as [v|]; [|by destruct e1, e2].
  destruct (py_eq v N); [|done].
  destruct (field e1 "lineCoverage") as [c|]; [|by destruct e1, e2].
  destruct (py_mul c 100) as [|p]; [done|]. by destruct (format_0f p).
Qed.

Lemma first_outcome_same_fields N ts1 ts2 :
  Forall2 same_fields ts1 ts2 →
  same_end (first_outcome N ts1) (first_outcome N ts2).
Proof.
  induction 1 as [|e1 e2 ts1 ts2 He _ IH]; [done|]. simpl.
  pose proof (entry_outcome_same_fields N e1 e2 He) as H.
  destruct (entry_outcome N e1) as [[|]|], (entry_outcome N e2) as [[|]|];
    done.
Qed.

Lemma finish_same_end w1 w2 r1 r2 :
  stdout w1 = stdout w2 → same_end r1 r2 →
  status (finish w1 r1) = status (finish w2 r2) ∧
  output (finish w1 r1) = output (finish w2 r2).
Proof.
  intros Hw H. destruct r1 as [[|]|], r2 as [[|]|]; try done;
    simpl in H; subst; unfold status, output; simpl; by rewrite ?Hw.
Qed.

(** X6.  Only ["targets"] of the document and ["name"] and
    ["lineCoverage"] of its entries are read: two documents whose
    [targets] have the same length and agree, entry by entry, on these two
    fields give the same output and the same exit status, whatever other
    keys they hold. *)
Theorem X6_only_name_and_coverage_are_read prog N j1 j2 ts1 ts2 :
  targets j1 = Some ts1 → targets j2 = Some ts2 →
  Forall2 same_fields ts1 ts2 →
  let o1 := run [prog; N] (inr j1) in
  let o2 := run [prog; N] (inr j2) in
  output o1 = output o2 ∧ status o1 = status o2.
Proof.
  intros H1 H2 Hsame. cbv zeta.
  rewrite (run_outcome _ _ _ _ H1), (run_outcome _ _ _ _ H2).
  destruct (finish_same_end (loaded [prog; N] (inr j1))
              (loaded [prog; N] (inr j2)) _ _ eq_refl
              (first_outcome_same_fields N ts1 ts2 Hsame)) as [Hs Ho].
  by split.
Qed.

Lemma X6_witness :
  let j1 := report [record "beta" (VFloat (float_of_ratio 1 2))] in
  let j2 :=
    VDict (<["coveredLines" := VInt 7]>
             {["targets" :=
                 VList [VDict (<["executableLines" := VInt 14]>
                          (<["name" := VStr "beta"]>
                             {["lineCoverage" := VFloat (float_of_ratio 1 2)]}))]]})
  in
  let o1 := run ["extract_coverage.py"; "beta"] (inr j1) in
  let o2 := run ["extract_coverage.py"; "beta"] (inr j2) in
  output o1 = output o2 ∧ status o1 = status o2.
Proof.
  cbv zeta.
  apply (X6_only_name_and_coverage_are_read "extract_coverage.py" "beta" _ _
           [record "beta" (VFloat (float_of_ratio 1 2))]
           [VDict (<["executableLines" := VInt 14]>
                     (<["name" := VStr "beta"]>
                        {["lineCoverage" := VFloat (float_of_ratio 1 2)]}))]);
    [by vm_compute | by vm_compute |].
  constructor; [|constructor]. split; by vm_compute.
Defined.

(** ** When the run succeeds *)

Lemma string_length_app (a b : string) :
  String.length (a +:+ b) = (String.length a + String.length b)%nat.
Proof. induction a as [|x a IH]; simpl; [done|]. by rewrite IH. Qed.

Lemma string_app_inj_r (a b c : string) : a +:+ c = b +:+ c → a = b.
Proof.
  intros H.
  assert (Hlen : String.length a = String.length b).
  { apply (f_equal String.length) in H.
    rewrite !string_length_app in H. lia. }
  revert b H Hlen. induction a as [|x a IH]; intros [|y b] H Hlen; try done.
  simpl in *. injection H as -> H. f_equal. apply IH; [done|lia].
Qed.

Lemma first_outcome_line N ts s :
  first_outcome N ts = Some (inr s) ↔
  ∃ pre r post c p,
    ts = pre ++ r :: post ∧ Forall (λ e, other_name N e = true) pre ∧
    named N r = true ∧ field r "lineCoverage" = Some c ∧
    py_mul c 100 = inr p ∧ format_0f p = inr s.
Proof.
  split.
  - induction ts as [|e ts IH]; [done|]. simpl.
    destruct (entry_outcome N e) as [r|] eqn:He.
    + intros [= ->]. exists [], e, ts. revert He. unfold entry_outcome.
      rewrite !getitem_str_field. unfold named.
      destruct (field e "name") as [v|]; [|by destruct e].
      destruct (py_eq v N); [|done].
      destruct (field e "lineCoverage") as [c|]; [|by destruct e].
      destruct (py_mul c 100) as [|p] eqn:Hp; [done|].
      destruct (format_0f p) as [|s'] eqn:Hs; [done|]. intros [= ->].
      exists c, p. by repeat split.
    + intros (pre & r & post & c & p & -> & Hpre & Hrest)%IH.
      exists (e :: pre), r, post, c, p. split; [done|].
      split; [|done]. constructor; [by apply entry_outcome_none|done].
  - intros (pre & r & post & c & p & -> & Hpre & Hr & Hc & Hp & Hs).
    rewrite first_outcome_app, (first_outcome_others _ _ Hpre). simpl.
    by rewrite (entry_outcome_named _ _ c), Hp, Hs.
Qed.

(** X7.  The run prints the line [s] and exits with status 0 exactly when
    some entry named like the argument is preceded only by entries with
    other names and has a ["lineCoverage"] whose product with 100 formats
    to [s]. *)
Theorem X7_success_exactly_when_first_match_formats prog N j ts s :
  targets j = Some ts →
  let o := run [prog; N] (inr j) in
  (status o = 0 ∧ output o = s +:+ nl) ↔
  ∃ pre r post c p,
    ts = pre ++ r :: post ∧ Forall (λ e, other_name N e = true) pre ∧
    named N r = true ∧ field r "lineCoverage" = Some c ∧
    py_mul c 100 = inr p ∧ format_0f p = inr s.
Proof.
  intros Hts. cbv zeta. rewrite <- first_outcome_line.
  rewrite (run_outcome _ _ _ _ Hts).
  destruct (first_outcome N ts) as [[err|s']|]; simpl.
  - split; [by intros [? _]|done].
  - unfold status, output. simpl. split.
    + intros [_ H]. change (s' +:+ nl = s +:+ nl) in H.
      by apply string_app_inj_r in H as ->.
    + by intros [= ->].
  - split; [by intros [? _]|done].
Qed.

Lemma X7_witness :
  targets sample = Some sample_targets ∧
  let o := run ["extract_coverage.py"; "beta"] (inr sample) in
  ((status o = 0 ∧ output o = "50" +:+ nl) ↔
   ∃ pre r post c p,
     sample_targets = pre ++ r :: post ∧
     Forall (λ e, other_name "beta" e = true) pre ∧
     named "beta" r = true ∧ field r "lineCoverage" = Some c ∧
     py_mul c 100 = inr p ∧ format_0f p = inr "50").
Proof.
  split; [by vm_compute|].
  by apply (X7_success_exactly_when_first_match_formats
              "extract_coverage.py" "beta" sample sample_targets "50").
Defined.

Lemma first_outcome_none N ts :
  first_outcome N ts = None ↔ Forall (λ e, other_name N e = true) ts.
Proof.
  split; [|apply first_outcome_others].
  induction ts as [|e ts IH]; [done|]. simpl.
  destruct (entry_outcome N e) eqn:He; [done|].
  intros H. constructor; [by apply entry_outcome_none|by apply IH].
Qed.

(** X8.  The run reaches the final [exit(1)] exactly when every entry of
    [targets] has a ["name"] and none of them is the argument: the records
    need no ["lineCoverage"] for it, and one entry without a ["name"] turns
    "not found" into an uncaught exception. *)
Theorem X8_not_found_exactly_when_all_names_differ prog N j ts :
  targets j = Some ts →
  fst (run [prog; N] (inr j)) = inl (SystemExit 1) ↔
  Forall (λ e, other_name N e = true) ts.
Proof.
  intros Hts. rewrite <- first_outcome_none, (run_outcome _ _ _ _ Hts).
  by destruct (first_outcome N ts) as [[|]|].
Qed.

Lemma X8_witness :
  targets sample = Some sample_targets ∧
  (fst (run ["extract_coverage.py"; "gamma"] (inr sample)) = inl (SystemExit 1) ↔
   Forall (λ e, other_name "gamma" e = true) sample_targets).
Proof.
  split; [by vm_compute|].
  by apply (X8_not_found_exactly_when_all_names_differ
              "extract_coverage.py" "gamma" sample sample_targets).
Defined.

(** ** Coverage values that are no numbers *)

Section Reached.

Variables (prog N : string) (j : value) (pre post : list value) (r c : value).

Hypothesis Hts : targets j = Some (pre ++ r :: post).

Hypothesis Hpre : Forall (λ e, other_name N e = true) pre.

Hypothesis Hr : named N r = true.

Hypothesis Hc : field r "lineCoverage" = Some c.

(** The run when the scan reaches the entry [r] named like the argument. *)
Lemma run_reached :
  run [prog; N] (inr j) =
    finish (loaded [prog; N] (inr j))
      match py_mul c 100 with
      | inl err => Some (inl err)
      | inr p => match format_0f p with
                 | inl err => Some (inl err)
                 | inr s => Some (inr s)
                 end
      end.
Proof.
  rewrite (run_outcome _ _ _ _ Hts), first_outcome_app.
  rewrite (first_outcome_others _ _ Hpre). simpl.
  rewrite (entry_outcome_named _ _ c Hr Hc).
  destruct (py_mul c 100) as [|p]; [done|]. by destruct (format_0f p).
Qed.

End Reached.

(** X9.  A ["lineCoverage"] that is [true] or [false] is taken for the
    number 1 or 0: the script prints [100] or [0] and exits with
    status 0. *)
Theorem X9_bool_coverage_counts_as_0_or_1 prog N j pre r post b :
  targets j = Some (pre ++ r :: post) →
  Forall (λ e, other_name N e = true) pre →
  named N r = true → field r "lineCoverage" = Some (VBool b) →
  let o := run [prog; N] (inr j) in
  output o = (if b then "100" else "0") +:+ nl ∧ status o = 0.
Proof.
  intros Hts Hpre Hr Hc. cbv zeta.
  rewrite (run_reached prog N j pre post r (VBool b) Hts Hpre Hr Hc).
  by destruct b.
Qed.

Lemma X9_witness :
  let j := report [record "beta" (VBool true)] in
  (targets j = Some ([] ++ record "beta" (VBool true) :: []) ∧
   named "beta" (record "beta" (VBool true)) = true) ∧
  let o := run ["extract_coverage.py"; "beta"] (inr j) in
  output o = "100" +:+ nl ∧ status o = 0.
Proof.
  split; [by vm_compute|].
  apply (X9_bool_coverage_counts_as_0_or_1
           "extract_coverage.py" "beta" _ []
           (record "beta" (VBool true)) [] true);
    by vm_compute.
Defined.

(** X10.  A ["lineCoverage"] that is [null], a string, an array or an
    object at the first entry named like the argument ends the run with an
    uncaught exception: nothing is printed and the status is 1. *)
Theorem X10_coverage_of_another_type_aborts prog N j pre r post c :
  targets j = Some (pre ++ r :: post) →
  Forall (λ e, other_name N e = true) pre →
  named N r = true → field r "lineCoverage" = Some c →
  not_a_number c = true →
  let o := run [prog; N] (inr j) in
  (∃ err, fst o = inl (Raised err)) ∧ output o = "" ∧ status o = 1.
Proof.
  intros Hts Hpre Hr Hc Hnan. cbv zeta.
  rewrite (run_reached prog N j pre post r c Hts Hpre Hr Hc).
  destruct c; try done; simpl; unfold status, output; simpl; eauto.
Qed.

Lemma X10_witness :
  let j := report [record "beta" (VStr "0.5")] in
  (targets j = Some ([] ++ record "beta" (VStr "0.5") :: []) ∧
   not_a_number (VStr "0.5") = true) ∧
  let o := run ["extract_coverage.py"; "beta"] (inr j) in
  (∃ err, fst o = inl (Raised err)) ∧ output o = "" ∧ status o = 1.
Proof.
  split; [by vm_compute|].
  apply (X10_coverage_of_another_type_aborts
           "extract_coverage.py" "beta" _ []
           (record "beta" (VStr "0.5")) [] (VStr "0.5"));
    by vm_compute.
Defined.

(** ** A [targets] that is no array *)

(** X11.  [len] accepts a string and an object: an empty string or an
    empty object under ["targets"] is taken for an empty array, and the run
    ends in the final [exit(1)] with nothing printed, as for a name that
    was not found. *)
Theorem X11_empty_string_or_object_is_an_empty_report prog N j t :
  field j "targets" = Some t → empty_sized t = true →
  let o := run [prog; N] (inr j) in
  fst o = inl (SystemExit 1) ∧ output o = "".
Proof.
  intros Hf Ht. cbv zeta. pose proof (getitem_field _ _ _ Hf) as Hg.
  unfold run, main, mbind, proc_bind. simpl. rewrite Hg. simpl.
  destruct t as [| | | |[|]|[|]|m]; try done.
  simpl in Ht. apply bool_decide_eq_true in Ht. simpl. by rewrite Ht.
Qed.

Lemma X11_witness :
  let j := VDict {["targets" := VDict ∅]} in
  (field j "targets" = Some (VDict ∅) ∧ empty_sized (VDict ∅) = true) ∧
  let o := run ["extract_coverage.py"; "beta"] (inr j) in
  fst o = inl (SystemExit 1) ∧ output o = "".
Proof.
  split; [by vm_compute|].
  apply (X11_empty_string_or_object_is_an_empty_report
           "extract_coverage.py" "beta" _ (VDict ∅));
    by vm_compute.
Defined.

(** ** A coverage in [0,1] prints at most 100 *)

Module Percent.

Lemma shr_1_half mrs : 0 <= shr_m mrs → 2 * shr_m (shr_1 mrs) <= shr_m mrs.
Proof.
  destruct mrs as [m r s]. simpl. intros Hm.
  destruct m as [|[p|p|]|p]; simpl; lia.
Qed.

Lemma iter_shr_1_floor p mrs :
  0 <= shr_m mrs →
  shr_m (SpecFloat.iter_pos shr_1 p mrs) * 2 ^ Z.pos p <= shr_m mrs.
Proof.
  revert mrs. induction p as [p IH|p IH|]; intros mrs Hm; simpl SpecFloat.iter_pos.
  - pose proof (shr_1_half mrs Hm) as H1.
    pose proof (Binary64.shr_1_m mrs Hm) as [H1' _].
    pose proof (IH (shr_1 mrs) H1') as H2.
    pose proof (Binary64.iter_shr_1_m p (shr_1 mrs) H1') as [H2' _].
    pose proof (IH _ H2') as H3.
    pose proof (Binary64.iter_shr_1_m p _ H2') as [H3' _].
    replace (Z.pos p~1) with (Z.pos p + Z.pos p + 1) by lia.
    rewrite !Z.pow_add_r by lia. simpl (2 ^ 1).
    assert (0 < 2 ^ Z.pos p) by (apply Z.pow_pos_nonneg; lia). nia.
  - pose proof (IH mrs Hm) as H2.
    pose proof (Binary64.iter_shr_1_m p mrs Hm) as [H2' _].
    pose proof (IH _ H2') as H3.
    pose proof (Binary64.iter_shr_1_m p _ H2') as [H3' _].
    replace (Z.pos p~0) with (Z.pos p + Z.pos p) by lia.
    rewrite !Z.pow_add_r by lia.
    assert (0 < 2 ^ Z.pos p) by (apply Z.pow_pos_nonneg; lia). nia.
  - pose proof (shr_1_half mrs Hm). simpl (2 ^ 1). lia.
Qed.

(** Shifting right keeps the weight or lowers it. *)
Lemma shr_weight mrs e n b :
  0 <= shr_m mrs → 0 <= e + b →
  shr_m (fst (shr mrs e n)) * 2 ^ (snd (shr mrs e n) + b)
    <= shr_m mrs * 2 ^ (e + b).
Proof.
  intros Hm Hb. destruct n as [|p|p]; simpl; try lia.
  pose proof (iter_shr_1_floor p mrs Hm) as H.
  pose proof (Binary64.iter_shr_1_m p mrs Hm) as [H0 _].
  replace (e + Z.pos p + b) with (Z.pos p + (e + b)) by lia.
  rewrite Z.pow_add_r by lia.
  assert (0 < 2 ^ (e + b)) by (apply Z.pow_pos_nonneg; lia). nia.
Qed.

(** Rounding a weight below 100 gives a zero or a finite double of weight
    at most 100; weights are scaled by [2^b] to stay integers. *)
Lemma binary_round_aux_weight sx mx ex k b :
  0 <= mx → mx + 1 < 2 ^ k → 0 <= k <= 400 → k + ex <= 55 → ex <= 2 →
  0 <= ex + b →
  mx * 2 ^ (ex + b) < 25 * 2 ^ (b + 2) →
  binary_round_aux prec emax sx mx ex loc_Exact = S754_zero sx ∨
  ∃ m e, binary_round_aux prec emax sx mx ex loc_Exact = S754_finite sx m e ∧
         0 <= e + b ∧ Z.pos m * 2 ^ (e + b) <= 25 * 2 ^ (b + 2).
Proof.
  intros Hmx Hk Hk4 Hkex Hex Hb Hw. unfold binary_round_aux, shr_fexp.
  set (n1 := fexp prec emax (Zdigits2 mx + ex) - ex).
  pose proof (Binary64.shr_spec (shr_record_of_loc mx loc_Exact) ex n1)
    as [Hm1 He1].
  { by rewrite Binary64.shr_record_of_loc_m. }
  pose proof (shr_weight (shr_record_of_loc mx loc_Exact) ex n1 b) as Hw1.
  destruct (shr (shr_record_of_loc mx loc_Exact) ex n1) as [mrs1 e1].
  simpl in Hm1, He1, Hw1. specialize (Hw1 Hmx Hb).
  set (m1 := round_nearest_even (shr_m mrs1) (loc_of_shr_record mrs1)).
  pose proof (Binary64.round_nearest_even_bound
                (shr_m mrs1) (loc_of_shr_record mrs1)) as Hr.
  fold m1 in Hr.
  assert (Zdigits2 mx <= k) by (apply Binary64.Zdigits2_bound; lia).
  assert (He1' : ex <= e1 <= 2).
  { subst n1. rewrite Binary64.fexp_eq in He1. lia. }
  assert (Hw1' : m1 * 2 ^ (e1 + b) <= 25 * 2 ^ (b + 2)).
  { assert (Hpow : 2 ^ (b + 2) = 2 ^ (2 - e1) * 2 ^ (e1 + b)).
    { rewrite <- Z.pow_add_r by lia. f_equal. lia. }
    rewrite Hpow in *.
    set (P := 2 ^ (e1 + b)) in *. set (Q := 2 ^ (2 - e1)) in *.
    assert (HP : 0 < P) by (apply Z.pow_pos_nonneg; lia).
    assert (Hlt : shr_m mrs1 < 25 * Q).
    { apply (Z.mul_lt_mono_pos_r P); lia. }
    replace (25 * (Q * P)) with (25 * Q * P) by lia.
    apply Z.mul_le_mono_nonneg_r; lia. }
  set (n2 := fexp prec emax (Zdigits2 m1 + e1) - e1).
  pose proof (Binary64.shr_spec (shr_record_of_loc m1 loc_Exact) e1 n2)
    as [Hm2 He2].
  { rewrite Binary64.shr_record_of_loc_m. lia. }
  pose proof (shr_weight (shr_record_of_loc m1 loc_Exact) e1 n2 b) as Hw2.
  destruct (shr (shr_record_of_loc m1 loc_Exact) e1 n2) as [mrs2 e2].
  simpl in Hm2, He2, Hw2.
  specialize (Hw2 ltac:(lia) ltac:(lia)).
  assert (Zdigits2 m1 <= k) by (apply Binary64.Zdigits2_bound; lia).
  assert (e1 <= e2 <= 971).
  { subst n2. rewrite Binary64.fexp_eq in He2. lia. }
  destruct (shr_m mrs2) as [|p|p] eqn:E; [by left | right | lia].
  unfold emax, prec.
  replace (e2 <=? 1024 - 53) with true by (symmetry; apply Z.leb_le; lia).
  exists p, e2. split; [done|]. split; lia.
Qed.

(** The formatter's integer for a weight of at most 100. *)
Lemma round_half_even_le_100 m e b :
  0 <= e + b → 0 <= b →
  Z.pos m * 2 ^ (e + b) <= 25 * 2 ^ (b + 2) → round_half_even m e <= 100.
Proof.
  intros Heb Hb Hw. unfold round_half_even.
  assert (H2b : 0 < 2 ^ b) by (apply Z.pow_pos_nonneg; lia).
  rewrite (Z.pow_add_r 2 b 2) in Hw by lia. change (2 ^ 2) with 4 in Hw.
  destruct (0 <=? e) eqn:He.
  - apply Z.leb_le in He. rewrite Z.pow_add_r in Hw by lia.
    assert (0 < 2 ^ e) by (apply Z.pow_pos_nonneg; lia). nia.
  - apply Z.leb_gt in He.
    set (d := 2 ^ (- e)).
    assert (Hd : 0 < d) by (apply Z.pow_pos_nonneg; lia).
    assert (Hsplit : 2 ^ b = 2 ^ (e + b) * d).
    { unfold d. rewrite <- Z.pow_add_r by lia. f_equal. lia. }
    assert (0 < 2 ^ (e + b)) by (apply Z.pow_pos_nonneg; lia).
    assert (Hm : Z.pos m <= 100 * d) by nia.
    pose proof (Z.div_mod (Z.pos m) d ltac:(lia)) as Hdm.
    pose proof (Z.mod_pos_bound (Z.pos m) d Hd) as Hr.
    set (q := Z.pos m / d) in *. set (r := Z.pos m mod d) in *.
    assert (Hq : q <= 100) by nia.
    destruct (Z.compare_spec (2 * r) d) as [Heq|Hlt|Hgt].
    + destruct (Z.even q); nia.
    + lia.
    + nia.
Qed.

End Percent.

(** ** The percentage of a coverage in [0,1] *)

Lemma is_double_exponent s m e :
  is_double (S754_finite s m e) = true → -1074 <= e.
Proof.
  unfold is_double, valid_binary, bounded, canonical_mantissa.
  intros H. apply andb_prop in H as [H _]. apply Z.eqb_eq in H.
  rewrite Binary64.fexp_eq in H. lia.
Qed.

Lemma SFleb_one_below m e :
  SFleb (S754_finite false m e) one = true →
  e < -52 ∨ (e = -52 ∧ (m <= 4503599627370496)%positive).
Proof.
  unfold SFleb, SFcompare, one.
  destruct (Z.compare_spec e (-52)) as [Heq|Hlt|Hgt].
  - intros H. right. split; [exact Heq|].
    unfold Pos.le, Pos.compare.
    destruct (Pos.compare_cont Eq m _); discriminate.
  - intros _. left. exact Hlt.
  - intros H. discriminate H.
Qed.

(** A double below 1 times 100 has a weight below 100, at any scale [2^b]
    that makes the weights integers. *)
Lemma below_one_weight m e b :
  1120 <= b → -1074 <= e → e <= -52 → Z.pos m < 2 ^ (- e) →
  Z.pos (m * 7036874417766400) * 2 ^ (e + -46 + b) < 25 * 2 ^ (b + 2).
Proof.
  intros Hb He He' Hm.
  set (R := 2 ^ (e + -46 + b)).
  assert (HR : 0 < R) by (apply Z.pow_pos_nonneg; lia).
  assert (Hsplit : 2 ^ (b + 2) = 2 ^ (- e) * (R * 2 ^ 48)).
  { unfold R. rewrite <- !Z.pow_add_r by lia. f_equal. lia. }
  rewrite Hsplit, Pos2Z.inj_mul.
  change (Z.pos 7036874417766400) with (25 * 2 ^ 48).
  assert (0 < 2 ^ 48) by done.
  replace (Z.pos m * (25 * 2 ^ 48) * R) with (25 * (Z.pos m * (R * 2 ^ 48))) by lia.
  apply Z.mul_lt_mono_pos_l; [lia|].
  apply Z.mul_lt_mono_pos_r; lia.
Qed.

(** The product with 100 of a finite double below 1. *)
Lemma below_one_result m e :
  -1074 <= e → e <= -52 → Z.pos m < 2 ^ 53 → Z.pos m < 2 ^ (- e) →
  SFmul prec emax (S754_finite false m e) hundred = S754_zero false ∨
  ∃ m' e', SFmul prec emax (S754_finite false m e) hundred
             = S754_finite false m' e' ∧
           round_half_even m' e' <= 100.
Proof.
  intros He He' Hm Hlt.
  unfold SFmul, hundred. simpl xorb.
  destruct (Percent.binary_round_aux_weight false
              (Z.pos (m * 7036874417766400)) (e + -46) 110 1200)
    as [Hz | (m' & e' & Hf & He'' & Hw')]; try lia.
  - by apply below_one_weight.
  - by left.
  - right. exists m', e'. split; [done|].
    by apply (Percent.round_half_even_le_100 m' e' 1200).
Qed.

Lemma unit_times_hundred_le f :
  is_double f = true → SFleb zero f = true → SFleb f one = true →
  f ≠ S754_zero true →
  SFmul prec emax f hundred = S754_zero false ∨
  ∃ m e, SFmul prec emax f hundred = S754_finite false m e ∧
         round_half_even m e <= 100.
Proof.
  intros Hd H0 H1 Hnz. destruct f as [[]|[]| |s m e]; try done; [by left|].
  destruct s; [done|].
  pose proof (Binary64.is_double_mantissa _ _ _ Hd) as Hm.
  pose proof (is_double_exponent _ _ _ Hd) as He.
  apply SFleb_one_below in H1.
  assert (H1' : e < -52 ∨ (e = -52 ∧ Z.pos m <= 2 ^ 52)).
  { destruct H1 as [Hlt | [Heq Hle]]; [by left|right].
    split; [exact Heq|]. exact (Pos2Z.pos_le_pos _ _ Hle). }
  clear H1.
  destruct (Z.eq_dec (Z.pos m) (2 ^ 52)) as [Hone|Hne];
    [destruct (Z.eq_dec e (-52)) as [->|Hne]|].
  - injection Hone as ->. right. eexists _, _.
    split; [by vm_compute|by vm_compute].
  - apply (below_one_result m e); [lia|lia|done|].
    destruct H1' as [Hlt | [Heq _]]; [|done].
    eapply Z.lt_le_trans; [exact Hm|]. apply Z.pow_le_mono_r; lia.
  - apply (below_one_result m e); [lia|lia|done|].
    destruct H1' as [Hlt | [-> Hle]].
    + eapply Z.lt_le_trans; [exact Hm|]. apply Z.pow_le_mono_r; lia.
    + change (- -52) with 52. lia.
Qed.

(** X12.  A coverage in [0,1] prints a percentage from 0 to 100: when the
    scan reaches an entry named like the argument whose ["lineCoverage"] is
    a number in [0,1], the float negative zero apart, the output is the
    line of an integer [n] with [0 <= n <= 100] and the status is 0. *)
Theorem X12_unit_coverage_prints_0_to_100 prog N j pre r post c :
  targets j = Some (pre ++ r :: post) →
  Forall (λ e, other_name N e = true) pre →
  named N r = true → field r "lineCoverage" = Some c →
  numeric c = true → in_unit_interval c = true →
  c ≠ VFloat (S754_zero true) →
  let o := run [prog; N] (inr j) in
  ∃ n, 0 <= n <= 100 ∧ output o = decimal n +:+ nl ∧ status o = 0.
Proof.
  intros Hts Hpre Hr Hc Hnum Hunit Hnz. cbv zeta.
  rewrite (run_reached prog N j pre post r c Hts Hpre Hr Hc).
  destruct c as [| |z|f| | |]; try done.
  - simpl in Hunit. apply andb_prop in Hunit as [H0%Z.leb_le H1%Z.leb_le].
    assert (z = 0 ∨ z = 1) as [-> | ->] by lia.
    + exists 0. split; [lia|]. by vm_compute.
    + exists 100. split; [lia|]. by vm_compute.
  - simpl in Hnum, Hunit. apply andb_prop in Hunit as [H0 H1].
    rewrite py_mul_float. unfold format_0f.
    destruct (unit_times_hundred_le f) as [-> | (m & e & -> & Hle)];
      try done.
    { congruence. }
    + exists 0. split; [lia|]. by vm_compute.
    + exists (round_half_even m e).
      split; [split; [apply round_half_even_nonneg|done]|]. done.
Qed.

Lemma X12_witness :
  (targets sample
     = Some ([record "alpha" (VFloat (float_of_ratio 873 1000))]
              ++ record "beta" (VFloat (float_of_ratio 1 2)) :: []) ∧
   in_unit_interval (VFloat (float_of_ratio 1 2)) = true) ∧
  let o := run ["extract_coverage.py"; "beta"] (inr sample) in
  ∃ n, 0 <= n <= 100 ∧ output o = decimal n +:+ nl ∧ status o = 0.
Proof.
  split; [by vm_compute|].
  apply (X12_unit_coverage_prints_0_to_100
           "extract_coverage.py" "beta" sample
           [record "alpha" (VFloat (float_of_ratio 873 1000))]
           (record "beta" (VFloat (float_of_ratio 1 2))) []
           (VFloat (float_of_ratio 1 2)));
    try (vm_compute; reflexivity).
  - constructor; [by vm_compute|constructor].
  - discriminate.
Defined.


